(** * SAP audit-log collector (sap.py): model and verified properties

    The collector polls an HTTP API, keeps a set of SHA-256 fingerprints of
    the records it has already handled, appends new records to an audit file
    that is rotated by size and age, and forwards each new record over TCP.

    Python text is modelled as its UTF-8 byte string ([string] of the
    Standard Library, one [ascii] per byte), so [str.encode('utf-8')] is the
    identity.  Clock readings are integers.  Calls of the logger are left
    out. *)

From Stdlib Require Import ZArith Lia List Ascii String DecimalString.
From stdpp Require Import base gmap strings list fin_maps sets.

Local Open Scope Z_scope.

(** ** hashlib.sha256 (FIPS 180-4), on 32-bit words held in [Z] *)

Module SHA256.

Definition mask32 : Z := 4294967295.

Definition add32 (x y : Z) : Z := Z.land (x + y) mask32.

Definition rotr (n x : Z) : Z :=
  Z.lor (Z.shiftr x n) (Z.land (Z.shiftl x (32 - n)) mask32).

Definition Ch (x y z : Z) : Z :=
  Z.lxor (Z.land x y) (Z.land (Z.lxor x mask32) z).

Definition Maj (x y z : Z) : Z :=
  Z.lxor (Z.lxor (Z.land x y) (Z.land x z)) (Z.land y z).

Definition Sigma0 (x : Z) : Z := Z.lxor (Z.lxor (rotr 2 x) (rotr 13 x)) (rotr 22 x).
Definition Sigma1 (x : Z) : Z := Z.lxor (Z.lxor (rotr 6 x) (rotr 11 x)) (rotr 25 x).
Definition sigma0 (x : Z) : Z := Z.lxor (Z.lxor (rotr 7 x) (rotr 18 x)) (Z.shiftr x 3).
Definition sigma1 (x : Z) : Z := Z.lxor (Z.lxor (rotr 17 x) (rotr 19 x)) (Z.shiftr x 10).

(** The constants are not tabulated but derived as FIPS 180-4 defines
    them: the first 32 bits of the fractional parts of the square roots
    (initial hash value) and of the cube roots (round constants) of the
    first primes. *)
Definition is_prime (n : Z) : bool :=
  forallb (fun d => negb (n mod Z.of_nat d =? 0)) (seq 2 (Z.to_nat n - 2)).

Definition primes : list Z :=
  filter is_prime (map Z.of_nat (seq 2 310)).

(** Integer cube root, found bit by bit from the top. *)
Fixpoint cbrt_bits (bits : nat) (n r : Z) : Z :=
  match bits with
  | O => r
  | S b =>
      let r' := r + 2 ^ Z.of_nat b in
      cbrt_bits b n (if r' * r' * r' <=? n then r' else r)
  end.

Definition cbrt (n : Z) : Z := cbrt_bits 40 n 0.

Definition K : list Z :=
  Eval vm_compute in map (fun p => Z.land (cbrt (p * 2 ^ 96)) mask32) primes.

Definition H0 : list Z :=
  Eval vm_compute in map (fun p => Z.land (Z.sqrt (p * 2 ^ 64)) mask32) (firstn 8 primes).

(** Padding: the byte 0x80, zero bytes up to 56 modulo 64, then the length
    in bits as a 64-bit big-endian number. *)
Definition be_bytes (n : nat) (x : Z) : list Z :=
  map (fun i => Z.land (Z.shiftr x (8 * Z.of_nat i)) 255) (rev (seq 0 n)).

Definition pad (msg : list Z) : list Z :=
  let len := Z.of_nat (length msg) in
  let zeros := Z.to_nat ((55 - len) mod 64) in
  msg ++ 128 :: repeat 0 zeros ++ be_bytes 8 (8 * len).

Fixpoint be_words (bs : list Z) : list Z :=
  match bs with
  | b0 :: b1 :: b2 :: b3 :: rest =>
      Z.lor (Z.shiftl b0 24) (Z.lor (Z.shiftl b1 16) (Z.lor (Z.shiftl b2 8) b3))
      :: be_words rest
  | _ => []
  end.

Fixpoint blocks (fuel : nat) (ws : list Z) : list (list Z) :=
  match fuel, ws with
  | S fuel', _ :: _ => firstn 16 ws :: blocks fuel' (skipn 16 ws)
  | _, _ => []
  end.

(** Message schedule, newest word first: the head of [w] is W[t-1]. *)
Fixpoint schedule (n : nat) (w : list Z) : list Z :=
  match n with
  | O => w
  | S n' =>
      let wt := add32 (add32 (sigma1 (nth 1 w 0)) (nth 6 w 0))
                      (add32 (sigma0 (nth 14 w 0)) (nth 15 w 0)) in
      schedule n' (wt :: w)
  end.

Definition expand (block : list Z) : list Z :=
  rev (schedule 48 (rev block)).

Record regs := Regs { ra : Z; rb : Z; rc : Z; rd : Z; re : Z; rf : Z; rg : Z; rh : Z }.

Definition round (r : regs) (kw : Z * Z) : regs :=
  let '(k, w) := kw in
  let t1 := add32 (add32 (add32 (rh r) (Sigma1 (re r)))
                         (add32 (Ch (re r) (rf r) (rg r)) k)) w in
  let t2 := add32 (Sigma0 (ra r)) (Maj (ra r) (rb r) (rc r)) in
  Regs (add32 t1 t2) (ra r) (rb r) (rc r) (add32 (rd r) t1) (re r) (rf r) (rg r).

Definition regs_of (h : list Z) : regs :=
  Regs (nth 0 h 0) (nth 1 h 0) (nth 2 h 0) (nth 3 h 0)
       (nth 4 h 0) (nth 5 h 0) (nth 6 h 0) (nth 7 h 0).

Definition list_of (r : regs) : list Z :=
  [ra r; rb r; rc r; rd r; re r; rf r; rg r; rh r].

Definition add_lists (xs ys : list Z) : list Z :=
  map (fun p => add32 (fst p) (snd p)) (combine xs ys).

Definition compress (h : list Z) (block : list Z) : list Z :=
  let r := fold_left round (combine K (expand block)) (regs_of h) in
  add_lists h (list_of r).

Definition digest_words (msg : list Z) : list Z :=
  let ws := be_words (pad msg) in
  fold_left compress (blocks (length ws) ws) H0.

Definition digest (msg : list Z) : list Z :=
  flat_map (be_bytes 4) (digest_words msg).

End SHA256.

(** ** Text helpers *)

Definition bytes_of_string (s : string) : list Z :=
  map (fun c => Z.of_N (N_of_ascii c)) (list_ascii_of_string s).

Definition hex_digit (n : Z) : ascii :=
  nth (Z.to_nat n) (list_ascii_of_string "0123456789abcdef") "0"%char.

Definition hex_of_bytes (bs : list Z) : string :=
  string_of_list_ascii
    (flat_map (fun b => [hex_digit (Z.shiftr b 4); hex_digit (Z.land b 15)]) bs).

(** [hashlib.sha256(s.encode('utf-8')).hexdigest()] *)
Definition sha256_hexdigest (s : string) : string :=
  hex_of_bytes (SHA256.digest (bytes_of_string s)).

Example sha256_constants :
  length SHA256.K = 64%nat
  /\ nth 0 SHA256.K 0 = 0x428a2f98 /\ nth 63 SHA256.K 0 = 0xc67178f2
  /\ nth 0 SHA256.H0 0 = 0x6a09e667 /\ nth 7 SHA256.H0 0 = 0x5be0cd19.
Proof. repeat split. Qed.

Example sha256_empty :
  sha256_hexdigest "" =
  "e3b0c44298fc1c149afbf4c8996fb92427ae41e4649b934ca495991b7852b855"%string.
Proof. vm_compute. reflexivity. Qed.

Example sha256_abc :
  sha256_hexdigest "abc" =
  "ba7816bf8f01cfea414140de5dae2223b00361a396177a9cb410ff61f20015ad"%string.
Proof. vm_compute. reflexivity. Qed.

Example sha256_two_blocks :
  sha256_hexdigest "abcdbcdecdefdefgefghfghighijhijkijkljklmklmnlmnomnopnopq" =
  "248d6a61d20638b8e5c026930c3e6039a33ce45964ff2167f6ecedd419db06c1"%string.
Proof. vm_compute. reflexivity. Qed.

(** ** json.dumps(obj, ensure_ascii=False) *)

Module Json.

(** What [response.json()] can hand back.  An object is a Python [dict]: its
    members keep their order and its keys are strings.  A float is carried by
    the text [json.dumps] prints for it ([float.__repr__] of the number, or
    [NaN], [Infinity], [-Infinity]). *)
#[warnings="-register-all"]
Inductive value :=
| JNull
| JBool (b : bool)
| JInt (n : Z)
| JFloat (repr : string)
| JStr (s : string)
| JList (items : list value)
| JDict (members : list (string * value)).

Definition quote : ascii := "034"%char.
Definition backslash : ascii := "092"%char.

(** [ESCAPE_DCT] of json.encoder: with [ensure_ascii=False] only the quote,
    the backslash and the control characters below 0x20 are rewritten. *)
Definition escape_char (c : ascii) : string :=
  let n := Z.of_N (N_of_ascii c) in
  if n =? 34 then String backslash (String quote EmptyString)
  else if n =? 92 then String backslash (String backslash EmptyString)
  else if n =? 10 then String backslash "n"
  else if n =? 13 then String backslash "r"
  else if n =? 9 then String backslash "t"
  else if n =? 8 then String backslash "b"
  else if n =? 12 then String backslash "f"
  else if n <? 32 then
    String backslash
      (String "u" (String "0" (String "0"
         (String (hex_digit (Z.shiftr n 4)) (String (hex_digit (Z.land n 15)) EmptyString)))))
  else String c EmptyString.

Fixpoint escape (s : string) : string :=
  match s with
  | EmptyString => EmptyString
  | String c rest => escape_char c +:+ escape rest
  end.

Definition encode_basestring (s : string) : string :=
  String quote (escape s +:+ String quote EmptyString).

(** [str(n)] for a Python int *)
Definition str_int (n : Z) : string := DecimalString.NilZero.string_of_int (Z.to_int n).

(** [", ".join(parts)] *)
Fixpoint join (parts : list string) : string :=
  match parts with
  | [] => EmptyString
  | [p] => p
  | p :: rest => p +:+ ", " +:+ join rest
  end.

Fixpoint dumps (v : value) : string :=
  match v with
  | JNull => "null"
  | JBool true => "true"
  | JBool false => "false"
  | JInt n => str_int n
  | JFloat repr => repr
  | JStr s => encode_basestring s
  | JList items => "[" +:+ join (map dumps items) +:+ "]"
  | JDict members =>
      "{" +:+ join (map (fun kv => encode_basestring (fst kv) +:+ ": " +:+ dumps (snd kv)) members)
          +:+ "}"
  end.

End Json.
Import Json.

(** ** Constants of sap.py *)

Definition audit_filename : string := "/opt/sap/logs/audit.txt".
Definition backup_filename : string := "/opt/sap/logs/audit.txt.1".
Definition MAX_AUDIT_FILESIZE : Z := 10 * 1024 * 1024.
Definition BACKUP_MAX_AGE_SECS : Z := 3600.
Definition MAX_RETRIES : nat := 5.

(** ** The world the collector runs in *)

(** A file is its bytes and its modification time.  The file system maps
    paths to files and is free of faults: removing or renaming an existing
    path succeeds, so the [except] branch of [rotate_audit_file] (log the
    error and go on) is never entered. *)
Record file := File { f_data : string; f_mtime : Z }.

(** The exceptions the handlers of [fetch_logs] name.  [Timeout] is a
    subclass of [RequestException].  The decode error is the exception
    [response.json()] raises on a body that is not JSON; it is a
    [json.JSONDecodeError].  Its class is declared by the requests library,
    outside this repository, and whether that class also derives from
    [requests.RequestException] differs between versions of the library (it
    does not before 2.27, it does from 2.27 on): the error carries that fact,
    which the surroundings fix ([json_error_is_request_exception] below). *)
Inductive exn :=
| Timeout
| RequestException
| JSONDecodeError (is_request_exception : bool).

Definition isinstance_Timeout (e : exn) : bool :=
  match e with
  | Timeout => true
  | _ => false
  end.

Definition isinstance_RequestException (e : exn) : bool :=
  match e with
  | Timeout | RequestException => true
  | JSONDecodeError is_request_exception => is_request_exception
  end.

(** The answer of the HTTP server to one [requests.get]: the call raises
    [requests.exceptions.Timeout], or the call or [raise_for_status] raises
    another [requests.RequestException], or a response arrives.  Of a
    response the collector reads [content] and [json()], which raises the
    decode error or returns the decoded value. *)
Inductive json_result :=
| JsonRaises
| Decoded (v : value).

Record response := Response { content : string; json : json_result }.

Inductive attempt_outcome :=
| RaisesTimeout
| RaisesRequestException
| Returns (r : response).

(** What the collector does to the outside, in order.  The URL of a request
    is determined by the window, so [EvGet] carries the window's two
    instants and the attempt number. *)
Inductive event :=
| EvGet (start_dt end_dt : Z) (attempt : nat)
| EvSleep (secs : Z)
| EvConnect (ok : bool)
| EvSend (data : string)
| EvSendall (bytes : string) (ok : bool)
| EvClose
| EvRemove (path : string)
| EvRename (src dst : string)
| EvWrite (path : string) (lines : list string).

(** The surroundings answer each query from the history so far, so every
    behaviour of clock, server and TCP peer is covered.  [time_time] is
    [time.time()] in seconds, [datetime_now] is [datetime.now(tz)] in
    microseconds.  The first field is the requests library in use. *)
Record environment := Environment {
  json_error_is_request_exception : bool;
  time_time : list event -> Z;
  datetime_now : list event -> Z;
  requests_get : list event -> attempt_outcome;
  create_connection : list event -> bool;
  sendall : list event -> bool
}.

(** [w_sock] tells whether [tcp_sender.sock] holds a socket. *)
Record world := World {
  w_fs : gmap string file;
  w_sock : bool;
  w_trace : list event
}.

Definition emit (e : event) (w : world) : world :=
  World (w_fs w) (w_sock w) (w_trace w ++ [e]).

Definition set_fs (fs : gmap string file) (w : world) : world :=
  World fs (w_sock w) (w_trace w).

Definition set_sock (s : bool) (w : world) : world :=
  World (w_fs w) s (w_trace w).

(** ** os and file operations *)

Definition os_path_exists (path : string) (w : world) : bool :=
  bool_decide (is_Some (w_fs w !! path)).

Definition os_path_getsize (f : file) : Z := Z.of_nat (String.length (f_data f)).

(** [os.remove] and [os.rename] are called on paths the caller has found to
    exist; on a missing source they would raise, which the model leaves
    out. *)
Definition os_remove (path : string) (w : world) : world :=
  emit (EvRemove path) (set_fs (delete path (w_fs w)) w).

Definition os_rename (src dst : string) (w : world) : world :=
  match w_fs w !! src with
  | Some f => emit (EvRename src dst) (set_fs (<[dst := f]> (delete src (w_fs w))) w)
  | None => w
  end.

Fixpoint concat_lines (lines : list string) : string :=
  match lines with
  | [] => EmptyString
  | l :: rest => l +:+ concat_lines rest
  end.

(** [with open(filename, 'a') as f: f.writelines(lines)]: the file is
    created when absent, the lines go after what it holds. *)
Definition append_lines (env : environment) (filename : string) (lines : list string)
    (w : world) : world :=
  let old := match w_fs w !! filename with Some f => f_data f | None => EmptyString end in
  let f' := File (old +:+ concat_lines lines) (time_time env (w_trace w)) in
  emit (EvWrite filename lines) (set_fs (<[filename := f']> (w_fs w)) w).

Definition LF : ascii := "010"%char.
Definition CR : ascii := "013"%char.

(** Text mode with the default [newline=None]: on reading, CR LF and a lone
    CR both arrive as LF. *)
Fixpoint universal_newlines (s : string) : string :=
  match s with
  | EmptyString => EmptyString
  | String c rest =>
      if Ascii.eqb c CR then
        match rest with
        | String c' rest' =>
            if Ascii.eqb c' LF then String LF (universal_newlines rest')
            else String LF (universal_newlines rest)
        | EmptyString => String LF EmptyString
        end
      else String c (universal_newlines rest)
  end.

(** [for line in f]: each line keeps the LF that ends it. *)
Fixpoint iter_lines (s : string) : list string :=
  match s with
  | EmptyString => []
  | String c rest =>
      if Ascii.eqb c LF then String c EmptyString :: iter_lines rest
      else match iter_lines rest with
           | [] => [String c EmptyString]
           | l :: ls => String c l :: ls
           end
  end.

Definition read_lines (f : file) : list string :=
  iter_lines (universal_newlines (f_data f)).

(** ** TcpLogSender *)

(** The one instance, [tcp_sender]: its [sock] field is [w_sock].  [send]
    first leaves [EvSend] in the trace, to mark the call. *)
Module TcpLogSender.

Definition connect (env : environment) (w : world) : world :=
  let ok := create_connection env (w_trace w) in
  emit (EvConnect ok) (set_sock ok w).

Definition send (env : environment) (data : string) (w : world) : world :=
  let w0 := emit (EvSend data) w in
  let w1 := if w_sock w0 then w0 else connect env w0 in
  if w_sock w1 then
    let bytes := data +:+ String LF EmptyString in
    if sendall env (w_trace w1) then emit (EvSendall bytes true) w1
    else emit EvClose (set_sock false (emit (EvSendall bytes false) w1))
  else w1.

Definition close (w : world) : world :=
  if w_sock w then emit EvClose (set_sock false w) else w.

End TcpLogSender.

(** ** fetch_logs *)

(** [timedelta(hours=hours)] in microseconds. *)
Definition time_window (env : environment) (hours : Z) (w : world) : Z * Z :=
  let now := datetime_now env (w_trace w) in
  (now - hours * 3600 * 1000000, now).

(** [bytes.strip()] leaves nothing exactly when every byte is white space. *)
Definition is_space (c : ascii) : bool :=
  let n := Z.of_N (N_of_ascii c) in
  (n =? 32) || ((9 <=? n) && (n <=? 13)).

Fixpoint strip_is_empty (s : string) : bool :=
  match s with
  | EmptyString => true
  | String c rest => is_space c && strip_is_empty rest
  end.

(** The body of the [try]: the exception it raises, or the value it
    returns. *)
Definition try_request (env : environment) (outcome : attempt_outcome) : exn + list value :=
  match outcome with
  | RaisesTimeout => inl Timeout
  | RaisesRequestException => inl RequestException
  | Returns r =>
      if strip_is_empty (content r) then inr []
      else match json r with
           | JsonRaises => inl (JSONDecodeError (json_error_is_request_exception env))
           | Decoded (JList logs) => inr logs
           | Decoded _ => inr []
           end
  end.

(** The [for attempt in range(1, MAX_RETRIES + 1)] loop over the attempt
    numbers still to run; running out of them is the code after the loop.
    The handlers are tried in the order of the source; the last one is
    [except json.JSONDecodeError], the only class left. *)
Fixpoint fetch_attempts (env : environment) (start_dt end_dt : Z) (attempts : list nat)
    (w : world) : option (list value) * world :=
  match attempts with
  | [] => (None, w)
  | attempt :: rest =>
      let outcome := requests_get env (w_trace w) in
      let w1 := emit (EvGet start_dt end_dt attempt) w in
      let backoff := 2 ^ Z.of_nat attempt in
      match try_request env outcome with
      | inr logs => (Some logs, w1)
      | inl e =>
          if isinstance_Timeout e then
            fetch_attempts env start_dt end_dt rest (emit (EvSleep backoff) w1)
          else if isinstance_RequestException e then
            if Nat.eqb attempt MAX_RETRIES then (None, w1)
            else fetch_attempts env start_dt end_dt rest (emit (EvSleep backoff) w1)
          else (None, w1)
      end
  end.

Definition fetch_logs (env : environment) (start_dt end_dt : Z) (w : world)
    : option (list value) * world :=
  fetch_attempts env start_dt end_dt (seq 1 MAX_RETRIES) w.

(** ** rotate_audit_file *)

Definition rotate_audit_file (env : environment) (w : world) : world :=
  let w1 :=
    match w_fs w !! backup_filename with
    | Some b =>
        let backup_age := time_time env (w_trace w) - f_mtime b in
        if backup_age >? BACKUP_MAX_AGE_SECS then os_remove backup_filename w else w
    | None => w
    end in
  match w_fs w1 !! audit_filename with
  | Some a =>
      if os_path_getsize a >=? MAX_AUDIT_FILESIZE then
        let w2 := if os_path_exists backup_filename w1
                  then os_remove backup_filename w1 else w1 in
        os_rename audit_filename backup_filename w2
      else w1
  | None => w1
  end.

(** ** load_existing_event_hashes and write_unique_logs *)

Definition load_existing_event_hashes (filename : string) (w : world) : gset string :=
  match w_fs w !! filename with
  | Some f =>
      fold_left (fun seen_hashes line => {[sha256_hexdigest line]} ∪ seen_hashes)
                (read_lines f) ∅
  | None => ∅
  end.

(** One turn of [for log in logs]; the state is the set, the world and
    [new_events]. *)
Definition dedup_step (env : environment) (acc : gset string * world * list string)
    (log : value) : gset string * world * list string :=
  let '(seen_hashes, w, new_events) := acc in
  let json_line := dumps log in
  let event_hash := sha256_hexdigest json_line in
  if decide (event_hash ∈ seen_hashes) then acc
  else ({[event_hash]} ∪ seen_hashes,
        TcpLogSender.send env json_line w,
        new_events ++ [json_line +:+ String LF EmptyString]).

Definition write_unique_logs (env : environment) (logs : list value)
    (seen_hashes : gset string) (filename : string) (w : world) : gset string * world :=
  let w1 := rotate_audit_file env w in
  let '(seen', w2, new_events) := fold_left (dedup_step env) logs (seen_hashes, w1, []) in
  match new_events with
  | [] => (seen', w2)
  | _ :: _ => (seen', append_lines env filename new_events w2)
  end.

(** ** main *)

Record main_state := MainState { seen_hashes : gset string; last_end_dt : Z }.

(** The code of [main] before the loop. *)
Definition main_init (env : environment) (w : world) : main_state * world :=
  let seen := load_existing_event_hashes audit_filename w in
  let '(start_dt, end_dt) := time_window env 24 w in
  let '(logs, w1) := fetch_logs env start_dt end_dt w in
  let '(seen', w2) :=
    match logs with
    | None => (seen, w1)
    | Some logs => write_unique_logs env logs seen audit_filename w1
    end in
  (MainState seen' end_dt, w2).

(** One turn of [while True]. *)
Definition poll_cycle (env : environment) (s : main_state * world) : main_state * world :=
  let '(st, w) := s in
  let w0 := emit (EvSleep 60) w in
  let now := datetime_now env (w_trace w0) in
  let '(logs_new, w1) := fetch_logs env (last_end_dt st) now w0 in
  let '(seen', w2) :=
    match logs_new with
    | None => (seen_hashes st, w1)
    | Some [] => (seen_hashes st, w1)
    | Some ((_ :: _) as logs) => write_unique_logs env logs (seen_hashes st) audit_filename w1
    end in
  (MainState seen' now, w2).

(** [main] up to the end of its [n]-th turn of the loop; the
    [KeyboardInterrupt] that ends the loop is not part of the model. *)
Definition main (env : environment) (n : nat) (w : world) : main_state * world :=
  Nat.iter n (poll_cycle env) (main_init env w).

(** ** Derived notions used to state the properties *)

(** The fingerprint of a record, as [write_unique_logs] computes it. *)
Definition fingerprint (log : value) : string := sha256_hexdigest (dumps log).

(** The line [write_unique_logs] puts in [new_events] for a record. *)
Definition line_of (json_line : string) : string := json_line +:+ String LF EmptyString.

(** The serialisations the loop of [write_unique_logs] admits, in order, and
    the set it ends with: the loop without its effects on the world. *)
Fixpoint admitted (logs : list value) (seen : gset string) : list string :=
  match logs with
  | [] => []
  | log :: rest =>
      if decide (fingerprint log ∈ seen) then admitted rest seen
      else dumps log :: admitted rest ({[fingerprint log]} ∪ seen)
  end.

Fixpoint seen_after (logs : list value) (seen : gset string) : gset string :=
  match logs with
  | [] => seen
  | log :: rest =>
      if decide (fingerprint log ∈ seen) then seen_after rest seen
      else seen_after rest ({[fingerprint log]} ∪ seen)
  end.

(** The calls of [tcp_sender.send] the loop makes, one per admitted record. *)
Definition forward (env : environment) (json_lines : list string) (w : world) : world :=
  fold_left (fun w json_line => TcpLogSender.send env json_line w) json_lines w.

(** What the files hold, without their times. *)
Definition contents (w : world) : gmap string string := f_data <$> w_fs w.

(** The windows queried: one per call of [fetch_logs], taken at its first
    attempt. *)
Definition window_of (e : event) : list (Z * Z) :=
  match e with
  | EvGet start_dt end_dt 1 => [(start_dt, end_dt)]
  | _ => []
  end.

Definition windows (tr : list event) : list (Z * Z) := flat_map window_of tr.

(** Each window ends where the next one starts. *)
Fixpoint contiguous (ws : list (Z * Z)) : Prop :=
  match ws with
  | a :: ((b :: _) as rest) => snd a = fst b /\ contiguous rest
  | _ => True
  end.

(** The writes to files, in order: path and lines written. *)
Definition written_of (e : event) : list (string * list string) :=
  match e with
  | EvWrite path lines => [(path, lines)]
  | _ => []
  end.

Definition writes (tr : list event) : list (string * list string) := flat_map written_of tr.

(** The data handed to [tcp_sender.send], in order. *)
Definition sent_of (e : event) : list string :=
  match e with
  | EvSend data => [data]
  | _ => []
  end.

Definition sends (tr : list event) : list string := flat_map sent_of tr.

Definition is_rotation_event (e : event) : bool :=
  match e with
  | EvRemove _ | EvRename _ _ => true
  | _ => false
  end.

Definition is_forwarder_event (e : event) : bool :=
  match e with
  | EvSend _ | EvConnect _ | EvSendall _ _ | EvClose => true
  | _ => false
  end.

(** Position of the first event that satisfies [p]. *)
Fixpoint find_index (p : event -> bool) (tr : list event) : option nat :=
  match tr with
  | [] => None
  | e :: rest => if p e then Some O else S <$> find_index p rest
  end.

(** Position of the first call of [tcp_sender.send] with the given data, and
    of the first write to the audit file that holds its line. *)
Definition forwarded_at (json_line : string) (tr : list event) : option nat :=
  find_index (fun e => match e with
                       | EvSend data => bool_decide (data = json_line)
                       | _ => false
                       end) tr.

Definition persisted_at (json_line : string) (tr : list event) : option nat :=
  find_index (fun e => match e with
                       | EvWrite path lines =>
                           bool_decide (path = audit_filename)
                           && bool_decide (line_of json_line ∈ lines)
                       | _ => false
                       end) tr.

(** Whether the size test of [rotate_audit_file] holds: the audit file
    exists and has reached the threshold. *)
Definition rotation_due (w : world) : bool :=
  match w_fs w !! audit_filename with
  | Some a => os_path_getsize a >=? MAX_AUDIT_FILESIZE
  | None => false
  end.

(** ** Concrete surroundings and inputs *)

Definition env_timeouts : environment :=
  Environment false (fun _ => 0) (fun _ => 0) (fun _ => RaisesTimeout)
              (fun _ => false) (fun _ => false).

Definition env_malformed : environment :=
  Environment false (fun _ => 0) (fun _ => 0)
    (fun _ => Returns (Response "<html>Service Unavailable</html>" JsonRaises))
    (fun _ => false) (fun _ => false).

(** The same server under requests 2.27 or later, where the decode error is
    a [requests.RequestException]. *)
Definition env_malformed_current : environment :=
  Environment true (fun _ => 0) (fun _ => 0)
    (fun _ => Returns (Response "<html>Service Unavailable</html>" JsonRaises))
    (fun _ => false) (fun _ => false).

Definition world_empty : world := World ∅ false [].

(** An audit file of exactly 10 MiB, and a backup written at time 0. *)
Fixpoint filler (n : nat) : string :=
  match n with
  | O => EmptyString
  | S k => String "x" (filler k)
  end.

Definition big_audit : file := File (filler (Z.to_nat MAX_AUDIT_FILESIZE)) 7000.
Definition small_audit : file := File "{}" 7000.
Definition old_backup : file := File "[]" 0.

Definition world_full : world :=
  World (<[audit_filename := big_audit]> (<[backup_filename := old_backup]> ∅)) false [].

Definition world_stale : world :=
  World (<[audit_filename := small_audit]> (<[backup_filename := old_backup]> ∅)) false [].

(** The clock reads 7200 s; every connection attempt is refused. *)
Definition env_offline : environment :=
  Environment false (fun _ => 7200) (fun _ => 7200000000) (fun _ => RaisesTimeout)
              (fun _ => false) (fun _ => false).

(** The clock reads 7200 s; every connection attempt and every send
    succeeds. *)
Definition env_online : environment :=
  Environment false (fun _ => 7200) (fun _ => 7200000000) (fun _ => RaisesTimeout)
              (fun _ => true) (fun _ => true).

(** The records [{"id": 1}], [{"id": 2}], [{"id": 3}]. *)
Definition record1 : value := JDict [("id", JInt 1)].
Definition record2 : value := JDict [("id", JInt 2)].
Definition record3 : value := JDict [("id", JInt 3)].

(** ** Further notions, for the properties beyond the claims *)

(** Number of requests issued and seconds slept in a stretch of the trace. *)
Definition request_of (e : event) : nat :=
  match e with
  | EvGet _ _ _ => 1
  | _ => 0
  end.

Definition requests (tr : list event) : nat :=
  fold_right (fun e acc => (request_of e + acc)%nat) O tr.

Definition sleep_of (e : event) : Z :=
  match e with
  | EvSleep secs => secs
  | _ => 0
  end.

Definition slept (tr : list event) : Z := fold_right (fun e acc => sleep_of e + acc) 0 tr.

Definition is_fetch_event (e : event) : bool :=
  match e with
  | EvGet _ _ _ | EvSleep _ => true
  | _ => false
  end.

(** The events of [k] attempts that each ended in a retry, starting with
    attempt number [a]: request, then back-off sleep. *)
Definition retries (start_dt end_dt : Z) (a k : nat) : list event :=
  flat_map (fun n => [EvGet start_dt end_dt n; EvSleep (2 ^ Z.of_nat n)]) (seq a k).

(** Whether the request raised (a timeout or another request exception). *)
Definition raised (o : attempt_outcome) : bool :=
  match o with
  | Returns _ => false
  | _ => true
  end.

(** The payloads [sock.sendall] has accepted, in order. *)
Definition delivered_of (e : event) : list string :=
  match e with
  | EvSendall bytes true => [bytes]
  | _ => []
  end.

Definition delivered (tr : list event) : list string := flat_map delivered_of tr.

(** All lines written to files in a stretch of the trace, in order. *)
Definition lines_written (tr : list event) : list string := flat_map snd (writes tr).

(** Text without a line break: no CR and no LF in it. *)
Fixpoint string_forall (p : ascii -> bool) (s : string) : bool :=
  match s with
  | EmptyString => true
  | String c rest => p c && string_forall p rest
  end.

Definition no_CR (s : string) : bool := string_forall (fun c => negb (Ascii.eqb c CR)) s.

Definition single_line (s : string) : bool :=
  string_forall (fun c => negb (Ascii.eqb c CR) && negb (Ascii.eqb c LF)) s.

(** The floats of a value print without a line break (as the texts
    [json.dumps] prints for floats do). *)
Fixpoint floats_single_line (v : value) : bool :=
  match v with
  | JFloat repr => single_line repr
  | JList items => forallb floats_single_line items
  | JDict members => forallb (fun kv => floats_single_line (snd kv)) members
  | _ => true
  end.

(** ** Further concrete surroundings and inputs *)

(** Every request raises a request exception that is not a timeout. *)
Definition env_http_errors : environment :=
  Environment false (fun _ => 0) (fun _ => 0) (fun _ => RaisesRequestException)
              (fun _ => false) (fun _ => false).

(** The first request of the history times out, the second raises a request
    exception, every later one brings the list of two records. *)
Definition env_flaky : environment :=
  Environment false (fun _ => 0) (fun _ => 0)
    (fun h => match requests h with
              | O => RaisesTimeout
              | S O => RaisesRequestException
              | _ => Returns (Response (dumps (JList [record1; record2]))
                                       (Decoded (JList [record1; record2])))
              end)
    (fun _ => false) (fun _ => false).

(** A small audit file beside a backup that is 200 s old at time 7200. *)
Definition young_backup : file := File "[]" 7000.

Definition world_quiet : world :=
  World (<[audit_filename := small_audit]> (<[backup_filename := young_backup]> ∅)) false [].

(** An audit file of 10 MiB last written at time 0, two hours before the
    clock of [env_offline]. *)
Definition stale_big_audit : file := File (filler (Z.to_nat MAX_AUDIT_FILESIZE)) 0.

Definition world_full_stale : world :=
  World (<[audit_filename := stale_big_audit]> ∅) false [].

(** A record with a float, and with a line feed and a quote inside a
    string. *)
Definition record_multiline : value :=
  JDict [("ratio", JFloat "0.25");
         ("note", JStr (String "a" (String LF (String quote "b"))))].

(** * Properties *)

Arguments sha256_hexdigest : simpl never.
Arguments dumps : simpl never.

(** ** The fetcher *)

Section Fetcher.
Variable env : environment.
Variables start_dt end_dt : Z.

Lemma fetch_attempts_timeouts (attempts : list nat) (w : world) :
  (forall evs, requests_get env (w_trace w ++ evs) = RaisesTimeout) ->
  fetch_attempts env start_dt end_dt attempts w =
  (None,
   World (w_fs w) (w_sock w)
     (w_trace w ++
      flat_map (fun a => [EvGet start_dt end_dt a; EvSleep (2 ^ Z.of_nat a)]) attempts)).
Proof.
  revert w.
  induction attempts as [|a rest IH]; intros w Hto.
  - simpl. rewrite app_nil_r. by destruct w.
  - cbn [fetch_attempts flat_map].
    pose proof (Hto []) as Hnow. rewrite app_nil_r in Hnow. rewrite Hnow.
    cbn [try_request isinstance_Timeout]. rewrite IH.
    + cbn. by rewrite <- !app_assoc.
    + intros evs. cbn. rewrite <- !app_assoc. apply Hto.
Qed.

(** C3: when every request of the call times out, [fetch_logs] makes its
    five attempts, sleeps 2, 4, 8, 16 and 32 seconds after them, and returns
    [None] (the failure signal), not the empty list. *)
Theorem fetch_logs_timeout_exhaustion (w : world) :
  (forall evs, requests_get env (w_trace w ++ evs) = RaisesTimeout) ->
  fetch_logs env start_dt end_dt w =
  (None,
   World (w_fs w) (w_sock w)
     (w_trace w ++
      [EvGet start_dt end_dt 1; EvSleep 2; EvGet start_dt end_dt 2; EvSleep 4;
       EvGet start_dt end_dt 3; EvSleep 8; EvGet start_dt end_dt 4; EvSleep 16;
       EvGet start_dt end_dt 5; EvSleep 32]))
  /\ fst (fetch_logs env start_dt end_dt w) <> Some [].
Proof.
  intros Hto. unfold fetch_logs.
  rewrite (fetch_attempts_timeouts _ _ Hto). split; [reflexivity | discriminate].
Qed.

(** With a library whose decode error is not a
    [requests.RequestException] (requests before 2.27), the third handler is
    reached: when the first request brings a response whose body is not
    blank and whose [json()] raises, [fetch_logs] returns [None] at once,
    after one request and no sleep. *)
Theorem fetch_logs_malformed_json (w : world) (r : response) :
  json_error_is_request_exception env = false ->
  requests_get env (w_trace w) = Returns r ->
  strip_is_empty (content r) = false ->
  json r = JsonRaises ->
  fetch_logs env start_dt end_dt w = (None, emit (EvGet start_dt end_dt 1) w).
Proof.
  intros Hlib Hget Hbody Hjson. unfold fetch_logs.
  cbn [seq MAX_RETRIES fetch_attempts]. unfold try_request.
  by rewrite Hget, Hbody, Hjson, Hlib.
Qed.

(** With the other library, where the decode error is a
    [requests.RequestException], the second handler takes it: the first
    attempt is followed by a sleep of 2 seconds and the remaining
    attempts. *)
Lemma fetch_logs_decode_error_as_request_exception (w : world) (r : response) :
  json_error_is_request_exception env = true ->
  requests_get env (w_trace w) = Returns r ->
  strip_is_empty (content r) = false ->
  json r = JsonRaises ->
  fetch_logs env start_dt end_dt w =
  fetch_attempts env start_dt end_dt [2; 3; 4; 5]%nat
    (emit (EvSleep 2) (emit (EvGet start_dt end_dt 1) w)).
Proof.
  intros Hlib Hget Hbody Hjson. unfold fetch_logs.
  cbn [seq MAX_RETRIES fetch_attempts]. unfold try_request.
  by rewrite Hget, Hbody, Hjson, Hlib.
Qed.
End Fetcher.

Lemma fetch_logs_timeout_exhaustion_witness :
  fst (fetch_logs env_timeouts 0 60000000 world_empty) = None
  /\ w_trace (snd (fetch_logs env_timeouts 0 60000000 world_empty)) =
     [EvGet 0 60000000 1; EvSleep 2; EvGet 0 60000000 2; EvSleep 4;
      EvGet 0 60000000 3; EvSleep 8; EvGet 0 60000000 4; EvSleep 16;
      EvGet 0 60000000 5; EvSleep 32].
Proof.
  destruct (fetch_logs_timeout_exhaustion env_timeouts 0 60000000 world_empty) as [H _].
  - intros evs. reflexivity.
  - rewrite H. split; reflexivity.
Defined.

Lemma fetch_logs_malformed_json_witness :
  fetch_logs env_malformed 0 60000000 world_empty =
  (None, World ∅ false [EvGet 0 60000000 1]).
Proof.
  apply (fetch_logs_malformed_json env_malformed 0 60000000 world_empty
           (Response "<html>Service Unavailable</html>" JsonRaises));
    reflexivity.
Defined.

(** C2 fails on the code.  With requests 2.27 or later the error
    [response.json()] raises on a body that is not JSON is a
    [requests.RequestException], and [except requests.RequestException]
    stands before [except json.JSONDecodeError]: the second handler takes
    the error, so the fetch sleeps and retries.  Against a server that
    answers every request with the same HTML page, [fetch_logs] makes five
    requests and sleeps 2, 4, 8 and 16 seconds before it returns [None]; it
    does not return after the first request. *)
Theorem fetch_logs_malformed_json_retries :
  json_error_is_request_exception env_malformed_current = true
  /\ try_request env_malformed_current
       (requests_get env_malformed_current (w_trace world_empty))
     = inl (JSONDecodeError true)
  /\ fetch_logs env_malformed_current 0 60000000 world_empty
     = (None,
        World ∅ false
          [EvGet 0 60000000 1; EvSleep 2; EvGet 0 60000000 2; EvSleep 4;
           EvGet 0 60000000 3; EvSleep 8; EvGet 0 60000000 4; EvSleep 16;
           EvGet 0 60000000 5])
  /\ fetch_logs env_malformed_current 0 60000000 world_empty
     <> (None, emit (EvGet 0 60000000 1) world_empty).
Proof.
  assert (fetch_logs env_malformed_current 0 60000000 world_empty
          = (None,
             World ∅ false
               [EvGet 0 60000000 1; EvSleep 2; EvGet 0 60000000 2; EvSleep 4;
                EvGet 0 60000000 3; EvSleep 8; EvGet 0 60000000 4; EvSleep 16;
                EvGet 0 60000000 5])) as Hrun by reflexivity.
  split; [reflexivity |]. split; [reflexivity |]. split; [exact Hrun |].
  rewrite Hrun. intros Heq. injection Heq as Htrace. discriminate Htrace.
Qed.

(** ** The archive rotator *)

Lemma audit_ne_backup : audit_filename <> backup_filename.
Proof. discriminate. Qed.

Lemma os_path_exists_Some (path : string) (w : world) (f : file) :
  w_fs w !! path = Some f -> os_path_exists path w = true.
Proof. intros H. unfold os_path_exists. rewrite H. apply bool_decide_eq_true. eauto. Qed.

Lemma os_path_exists_None (path : string) (w : world) :
  w_fs w !! path = None -> os_path_exists path w = false.
Proof.
  intros H. unfold os_path_exists. rewrite H. apply bool_decide_eq_false.
  intros [x Hx]. discriminate.
Qed.

(** After the rename: nothing at the source, the file at the target, the
    other paths as before. *)
Ltac renamed :=
  split; [rewrite lookup_insert_ne, lookup_delete_eq by done; done |];
  split; [by rewrite lookup_insert_eq |];
  split; [intros p Hp1 Hp2; by rewrite lookup_insert_ne, !lookup_delete_ne by done |];
  by rewrite <- ?app_assoc.

Section Rotator.
Variable env : environment.

(** C7: with the audit file at or over 10 MiB, rotation leaves no file at
    the audit path and the former audit file at the backup path; a backup
    that was there is removed first (one removal, then the rename), and no
    other path of the file system changes, so the backup path holds the
    only backup there is. *)
Theorem rotate_at_threshold (w : world) (a : file) :
  w_fs w !! audit_filename = Some a ->
  MAX_AUDIT_FILESIZE <= os_path_getsize a ->
  let w' := rotate_audit_file env w in
  w_fs w' !! audit_filename = None
  /\ w_fs w' !! backup_filename = Some a
  /\ (forall p, p <> audit_filename -> p <> backup_filename ->
                w_fs w' !! p = w_fs w !! p)
  /\ w_trace w' =
     w_trace w
     ++ (if os_path_exists backup_filename w then [EvRemove backup_filename] else [])
     ++ [EvRename audit_filename backup_filename].
Proof.
  intros Ha Hsize. apply Z.geb_le in Hsize.
  pose proof audit_ne_backup as Hne.
  unfold rotate_audit_file.
  destruct (w_fs w !! backup_filename) as [b|] eqn:Hb.
  - rewrite (os_path_exists_Some _ _ _ Hb).
    destruct (_ >? _).
    + cbn. rewrite lookup_delete_ne, Ha, Hsize by done.
      rewrite os_path_exists_None by (cbn; apply lookup_delete_eq).
      unfold os_rename. cbn. rewrite lookup_delete_ne, Ha by done. cbn.
      renamed.
    + rewrite Ha, Hsize, (os_path_exists_Some _ _ _ Hb).
      unfold os_rename. cbn. rewrite lookup_delete_ne, Ha by done. cbn.
      renamed.
  - rewrite Ha, Hsize, !(os_path_exists_None _ _ Hb).
    unfold os_rename. rewrite Ha. cbn.
    renamed.
Qed.

(** C8: a backup older than an hour is removed, and the removal is the
    first thing rotation does.  When no rotation is due (the audit file is
    absent or under 10 MiB) it is the only thing: the file system is the
    old one without the backup. *)
Theorem rotate_expires_backup (w : world) (b : file) :
  w_fs w !! backup_filename = Some b ->
  time_time env (w_trace w) - f_mtime b > BACKUP_MAX_AGE_SECS ->
  let w' := rotate_audit_file env w in
  (exists rest, w_trace w' = w_trace w ++ EvRemove backup_filename :: rest)
  /\ (rotation_due w = false ->
      w_fs w' = delete backup_filename (w_fs w)
      /\ w_fs w' !! backup_filename = None
      /\ w_trace w' = w_trace w ++ [EvRemove backup_filename]).
Proof.
  intros Hb Hage. apply Z.gt_lt, Z.gtb_lt in Hage.
  pose proof audit_ne_backup as Hne.
  unfold rotate_audit_file, rotation_due. rewrite Hb, Hage. cbn.
  rewrite lookup_delete_ne by done.
  destruct (w_fs w !! audit_filename) as [a|] eqn:Ha.
  - destruct (_ >=? _).
    + rewrite os_path_exists_None by (cbn; apply lookup_delete_eq).
      unfold os_rename. cbn. rewrite lookup_delete_ne, Ha by done. cbn.
      split; [|discriminate].
      eexists. by rewrite <- app_assoc.
    + cbn. split; [by exists [] |].
      intros _. by rewrite lookup_delete_eq.
  - cbn. split; [by exists [] |].
    intros _. by rewrite lookup_delete_eq.
Qed.
End Rotator.

Lemma length_filler (n : nat) : String.length (filler n) = n.
Proof. induction n as [|n IH]; [reflexivity | cbn [filler String.length]; by rewrite IH]. Qed.

Lemma big_audit_size : os_path_getsize big_audit = MAX_AUDIT_FILESIZE.
Proof.
  unfold os_path_getsize, big_audit. cbn [f_data].
  rewrite length_filler. apply Z2Nat.id. discriminate.
Qed.

Lemma rotate_at_threshold_witness :
  let w' := rotate_audit_file env_offline world_full in
  w_fs w' !! audit_filename = None
  /\ w_fs w' !! backup_filename = Some big_audit
  /\ w_trace w' = [EvRemove backup_filename; EvRename audit_filename backup_filename].
Proof.
  assert (Hlook : w_fs world_full !! audit_filename = Some big_audit)
    by apply lookup_insert_eq.
  assert (Hsize : MAX_AUDIT_FILESIZE <= os_path_getsize big_audit)
    by (rewrite big_audit_size; lia).
  destruct (rotate_at_threshold env_offline world_full big_audit Hlook Hsize)
    as (H1 & H2 & _ & H4).
  split; [exact H1 | split; [exact H2 |]].
  rewrite H4.
  rewrite (os_path_exists_Some backup_filename world_full old_backup); [reflexivity |].
  unfold world_full. cbn [w_fs].
  rewrite lookup_insert_ne by discriminate. apply lookup_insert_eq.
Defined.

Lemma rotate_expires_backup_witness :
  let w' := rotate_audit_file env_offline world_stale in
  rotation_due world_stale = false
  /\ w_fs w' !! backup_filename = None
  /\ w_fs w' !! audit_filename = Some small_audit
  /\ w_trace w' = [EvRemove backup_filename].
Proof.
  assert (Hlook : w_fs world_stale !! backup_filename = Some old_backup)
    by (vm_compute; reflexivity).
  assert (Hage : time_time env_offline (w_trace world_stale) - f_mtime old_backup
                 > BACKUP_MAX_AGE_SECS) by (vm_compute; reflexivity).
  assert (Hdue : rotation_due world_stale = false) by (vm_compute; reflexivity).
  destruct (rotate_expires_backup env_offline world_stale old_backup Hlook Hage)
    as [_ H].
  destruct (H Hdue) as (Hfs & Hgone & Htr).
  split; [exact Hdue | split; [exact Hgone | split; [| exact Htr]]].
  rewrite Hfs. vm_compute. reflexivity.
Defined.

(** ** Replay of the audit file *)

(** C10: with no file at the path, replaying it gives the empty set: the
    [FileNotFoundError] branch passes and the empty [seen_hashes] is
    returned. *)
Theorem load_existing_event_hashes_absent (filename : string) (w : world) :
  w_fs w !! filename = None ->
  load_existing_event_hashes filename w = ∅.
Proof. intros H. unfold load_existing_event_hashes. by rewrite H. Qed.

Lemma load_existing_event_hashes_absent_witness :
  w_fs world_empty !! audit_filename = None
  /\ load_existing_event_hashes audit_filename world_empty = ∅.
Proof.
  assert (H : w_fs world_empty !! audit_filename = None) by apply lookup_empty.
  split; [exact H | exact (load_existing_event_hashes_absent audit_filename world_empty H)].
Defined.

(** ** Traces of the operations *)

Lemma windows_app (tr1 tr2 : list event) :
  windows (tr1 ++ tr2) = windows tr1 ++ windows tr2.
Proof. apply flat_map_app. Qed.

Lemma sends_app (tr1 tr2 : list event) : sends (tr1 ++ tr2) = sends tr1 ++ sends tr2.
Proof. apply flat_map_app. Qed.

Lemma writes_app (tr1 tr2 : list event) : writes (tr1 ++ tr2) = writes tr1 ++ writes tr2.
Proof. apply flat_map_app. Qed.

Lemma forwarder_no_write (evs : list event) :
  forallb is_forwarder_event evs = true -> writes evs = [].
Proof.
  induction evs as [|e evs IH]; [done |].
  cbn [forallb]. intros [He Hevs]%andb_prop.
  change (writes (e :: evs)) with (written_of e ++ writes evs).
  rewrite (IH Hevs). by destruct e.
Qed.

Lemma rotation_no_write (evs : list event) :
  forallb is_rotation_event evs = true -> writes evs = [].
Proof.
  induction evs as [|e evs IH]; [done |].
  cbn [forallb]. intros [He Hevs]%andb_prop.
  change (writes (e :: evs)) with (written_of e ++ writes evs).
  rewrite (IH Hevs). by destruct e.
Qed.

Lemma forwarder_no_window (evs : list event) :
  forallb is_forwarder_event evs = true -> windows evs = [].
Proof.
  induction evs as [|e evs IH]; [done |].
  cbn [forallb]. intros [He Hevs]%andb_prop.
  change (windows (e :: evs)) with (window_of e ++ windows evs).
  rewrite (IH Hevs). by destruct e.
Qed.

Lemma rotation_no_window (evs : list event) :
  forallb is_rotation_event evs = true -> windows evs = [].
Proof.
  induction evs as [|e evs IH]; [done |].
  cbn [forallb]. intros [He Hevs]%andb_prop.
  change (windows (e :: evs)) with (window_of e ++ windows evs).
  rewrite (IH Hevs). by destruct e.
Qed.

Lemma rotation_no_send (evs : list event) :
  forallb is_rotation_event evs = true -> sends evs = [].
Proof.
  induction evs as [|e evs IH]; [done |].
  cbn [forallb]. intros [He Hevs]%andb_prop.
  change (sends (e :: evs)) with (sent_of e ++ sends evs).
  rewrite (IH Hevs). by destruct e.
Qed.

Section Traces.
Variable env : environment.

Lemma rotate_trace (w : world) :
  exists evs, w_trace (rotate_audit_file env w) = w_trace w ++ evs
              /\ forallb is_rotation_event evs = true.
Proof.
  unfold rotate_audit_file, os_rename, os_remove.
  repeat (match goal with
          | |- context [match ?x with _ => _ end] => destruct x eqn:?
          end; cbn);
    rewrite <- ?app_assoc;
    first [ exists []; by rewrite app_nil_r | eexists; split; reflexivity ].
Qed.

Lemma rotate_ext (env' : environment) (w : world) :
  time_time env (w_trace w) = time_time env' (w_trace w) ->
  rotate_audit_file env w = rotate_audit_file env' w.
Proof. intros H. unfold rotate_audit_file. by rewrite H. Qed.

Lemma send_fs (data : string) (w : world) :
  w_fs (TcpLogSender.send env data w) = w_fs w.
Proof.
  unfold TcpLogSender.send, TcpLogSender.connect.
  repeat (match goal with |- context [if ?x then _ else _] => destruct x eqn:? end; cbn);
    reflexivity.
Qed.

Lemma send_trace (data : string) (w : world) :
  exists evs, w_trace (TcpLogSender.send env data w) = w_trace w ++ EvSend data :: evs
              /\ forallb is_forwarder_event evs = true
              /\ sends evs = [].
Proof.
  unfold TcpLogSender.send, TcpLogSender.connect.
  repeat (match goal with |- context [if ?x then _ else _] => destruct x eqn:? end; cbn);
    rewrite <- ?app_assoc; cbn; eexists; (split; [reflexivity | split; reflexivity]).
Qed.

Lemma forward_fs (json_lines : list string) (w : world) :
  w_fs (forward env json_lines w) = w_fs w.
Proof.
  revert w. induction json_lines as [|l ls IH]; intros w; [done |].
  cbn [forward fold_left]. fold (forward env ls (TcpLogSender.send env l w)).
  by rewrite IH, send_fs.
Qed.

Lemma forward_trace (json_lines : list string) (w : world) :
  exists evs, w_trace (forward env json_lines w) = w_trace w ++ evs
              /\ forallb is_forwarder_event evs = true
              /\ sends evs = json_lines.
Proof.
  revert w. induction json_lines as [|l ls IH]; intros w.
  - exists []. by rewrite app_nil_r.
  - cbn [forward fold_left]. fold (forward env ls (TcpLogSender.send env l w)).
    destruct (IH (TcpLogSender.send env l w)) as (evs2 & Htr2 & Hfw2 & Hs2).
    destruct (send_trace l w) as (evs1 & Htr1 & Hfw1 & Hs1).
    exists ((EvSend l :: evs1) ++ evs2).
    rewrite Htr2, Htr1, <- app_assoc. split; [done |].
    rewrite forallb_app, sends_app. cbn [forallb is_forwarder_event].
    rewrite Hfw1, Hfw2. split; [done |].
    change (sends (EvSend l :: evs1)) with (l :: sends evs1).
    by rewrite Hs1, Hs2.
Qed.

(** The loop of [write_unique_logs], split into what it decides and what
    it does to the world. *)
Lemma fold_dedup_step (logs : list value) (seen : gset string) (w : world)
    (new_events : list string) :
  fold_left (dedup_step env) logs (seen, w, new_events) =
  (seen_after logs seen,
   forward env (admitted logs seen) w,
   new_events ++ map line_of (admitted logs seen)).
Proof.
  revert seen w new_events.
  induction logs as [|log logs IH]; intros seen w new_events.
  - cbn. by rewrite app_nil_r.
  - cbn [fold_left dedup_step admitted seen_after]. unfold fingerprint.
    destruct (decide (sha256_hexdigest (dumps log) ∈ seen)) as [Hin|Hout].
    + apply IH.
    + rewrite IH. cbn [map forward fold_left]. by rewrite <- app_assoc.
Qed.

Lemma write_unique_logs_eq (logs : list value) (seen : gset string) (filename : string)
    (w : world) :
  write_unique_logs env logs seen filename w =
  (seen_after logs seen,
   let w2 := forward env (admitted logs seen) (rotate_audit_file env w) in
   match admitted logs seen with
   | [] => w2
   | _ :: _ => append_lines env filename (map line_of (admitted logs seen)) w2
   end).
Proof.
  unfold write_unique_logs. rewrite fold_dedup_step. cbn [app].
  by destruct (admitted logs seen).
Qed.
End Traces.

(** ** Order of rotation, forwarding and persistence *)

Lemma find_index_lt (p : event -> bool) (tr : list event) (i : nat) :
  find_index p tr = Some i -> (i < length tr)%nat.
Proof.
  revert i. induction tr as [|e tr IH]; intros i; [discriminate |].
  cbn [find_index length]. destruct (p e).
  - intros [= <-]. lia.
  - destruct (find_index p tr) as [k|]; [|discriminate].
    intros [= <-]. specialize (IH k eq_refl). lia.
Qed.

Lemma find_index_app (p : event -> bool) (tr1 tr2 : list event) :
  find_index p (tr1 ++ tr2) =
  match find_index p tr1 with
  | Some i => Some i
  | None => (fun n => (length tr1 + n)%nat) <$> find_index p tr2
  end.
Proof.
  induction tr1 as [|e tr1 IH].
  - cbn. by destruct (find_index p tr2).
  - cbn [app find_index length]. destruct (p e); [done |].
    rewrite IH. destruct (find_index p tr1); [done |].
    by destruct (find_index p tr2).
Qed.

Lemma find_index_none (p q : event -> bool) (tr : list event) :
  (forall e, q e = true -> p e = false) ->
  forallb q tr = true -> find_index p tr = None.
Proof.
  intros Hqp. induction tr as [|e tr IH]; [done |].
  cbn [forallb find_index]. intros [He Htr]%andb_prop.
  by rewrite (Hqp e He), (IH Htr).
Qed.

Lemma forwarded_at_sends (json_line : string) (tr : list event) (j : nat) :
  forwarded_at json_line tr = Some j -> json_line ∈ sends tr.
Proof.
  unfold forwarded_at. revert j. induction tr as [|e tr IH]; intros j; [discriminate |].
  cbn [find_index]. change (sends (e :: tr)) with (sent_of e ++ sends tr).
  destruct e; try (destruct (find_index _ tr) as [k|]; [|discriminate];
                   intros _; cbn; by apply (IH k)).
  case_bool_decide as Hd.
  - subst. intros _. cbn. left.
  - destruct (find_index _ tr) as [k|]; [|discriminate].
    intros _. cbn. right. by apply (IH k).
Qed.

Lemma forwarded_at_app (json_line : string) (tr1 tr2 : list event) :
  forwarded_at json_line (tr1 ++ tr2) =
  match forwarded_at json_line tr1 with
  | Some i => Some i
  | None => (fun n => (length tr1 + n)%nat) <$> forwarded_at json_line tr2
  end.
Proof. apply find_index_app. Qed.

Lemma persisted_at_app (json_line : string) (tr1 tr2 : list event) :
  persisted_at json_line (tr1 ++ tr2) =
  match persisted_at json_line tr1 with
  | Some i => Some i
  | None => (fun n => (length tr1 + n)%nat) <$> persisted_at json_line tr2
  end.
Proof. apply find_index_app. Qed.

Section Order.
Variable env : environment.

Lemma write_unique_logs_trace (logs : list value) (seen : gset string) (w : world) :
  exists rot fwd,
    w_trace (snd (write_unique_logs env logs seen audit_filename w))
    = w_trace w ++ rot ++ fwd
      ++ match admitted logs seen with
         | [] => []
         | _ :: _ => [EvWrite audit_filename (map line_of (admitted logs seen))]
         end
    /\ forallb is_rotation_event rot = true
    /\ forallb is_forwarder_event fwd = true
    /\ sends fwd = admitted logs seen.
Proof.
  rewrite write_unique_logs_eq. cbn [snd]. cbv zeta.
  destruct (rotate_trace env w) as (rot & Hrot & Hrot_ev).
  destruct (forward_trace env (admitted logs seen) (rotate_audit_file env w))
    as (fwd & Hfwd & Hfwd_ev & Hsends).
  exists rot, fwd.
  split; [| done].
  destruct (admitted logs seen) as [|l ls].
  - by rewrite Hfwd, Hrot, app_nil_r, <- app_assoc.
  - unfold append_lines, emit. cbn [w_trace set_fs].
    by rewrite Hfwd, Hrot, <- !app_assoc.
Qed.

(** C5, as the code has it: the events of one call of [write_unique_logs]
    are those of rotation, then those of the forwarder (one call of
    [tcp_sender.send] per admitted record, in order), then, when a record
    was admitted, one write of all admitted lines to the audit file.  So
    every record handed to the forwarder is appended to the audit file
    later in the same call, not before. *)
Theorem write_unique_logs_order (logs : list value) (seen : gset string) (w : world) :
  let json_lines := admitted logs seen in
  let wr := match json_lines with
            | [] => []
            | _ :: _ => [EvWrite audit_filename (map line_of json_lines)]
            end in
  exists rot fwd,
    w_trace (snd (write_unique_logs env logs seen audit_filename w))
    = w_trace w ++ rot ++ fwd ++ wr
    /\ forallb is_rotation_event rot = true
    /\ forallb is_forwarder_event fwd = true
    /\ sends fwd = json_lines
    /\ forall json_line j,
         forwarded_at json_line (rot ++ fwd ++ wr) = Some j ->
         exists i, persisted_at json_line (rot ++ fwd ++ wr) = Some i /\ (j < i)%nat.
Proof.
  cbv zeta.
  destruct (write_unique_logs_trace logs seen w) as (rot & fwd & Htr & Hrot_ev & Hfwd_ev & Hsends).
  remember (admitted logs seen) as json_lines eqn:Hjl.
  exists rot, fwd.
  split; [done | split; [done | split; [done | split; [done |]]]].
  intros json_line j.
  assert (forwarded_at json_line rot = None) as Hr1
    by (apply (find_index_none _ is_rotation_event); [by intros [] | done]).
  assert (persisted_at json_line rot = None) as Hr2
    by (apply (find_index_none _ is_rotation_event); [by intros [] | done]).
  assert (persisted_at json_line fwd = None) as Hf2
    by (apply (find_index_none _ is_forwarder_event); [by intros [] | done]).
  rewrite !forwarded_at_app, !persisted_at_app, Hr1, Hr2, Hf2.
  destruct (forwarded_at json_line fwd) as [k|] eqn:Hk.
  - intros [= <-].
    pose proof (find_index_lt _ _ _ Hk) as Hlt.
    apply forwarded_at_sends in Hk. rewrite Hsends in Hk.
    destruct json_lines as [|l ls]; [by apply elem_of_nil in Hk |].
    unfold persisted_at. cbn [find_index].
    rewrite bool_decide_eq_true_2 by done.
    rewrite bool_decide_eq_true_2 by (by apply list_elem_of_fmap_2).
    cbn. eexists. split; [reflexivity | lia].
  - destruct json_lines; cbn; discriminate.
Qed.
End Order.

(** C5 as stated fails: for the single new record [{"id": 1}] the call of
    [tcp_sender.send] is the first event and the write to the audit file the
    fourth, so the record is not appended before it is forwarded. *)
Lemma forward_precedes_persist :
  let tr := w_trace (snd (write_unique_logs env_online [record1] ∅ audit_filename
                            world_empty)) in
  tr = [EvSend (dumps record1); EvConnect true;
        EvSendall (line_of (dumps record1)) true;
        EvWrite audit_filename [line_of (dumps record1)]]
  /\ forwarded_at (dumps record1) tr = Some 0%nat
  /\ persisted_at (dumps record1) tr = Some 3%nat
  /\ ~ (exists i j, persisted_at (dumps record1) tr = Some i
                    /\ forwarded_at (dumps record1) tr = Some j /\ (i < j)%nat).
Proof.
  cbv zeta.
  assert (forwarded_at (dumps record1)
            (w_trace (snd (write_unique_logs env_online [record1] ∅ audit_filename
                             world_empty))) = Some 0%nat) as Hf
    by (vm_compute; reflexivity).
  assert (persisted_at (dumps record1)
            (w_trace (snd (write_unique_logs env_online [record1] ∅ audit_filename
                             world_empty))) = Some 3%nat) as Hp
    by (vm_compute; reflexivity).
  split; [vm_compute; reflexivity |].
  split; [exact Hf | split; [exact Hp |]].
  intros (i & j & Hi & Hj & Hlt). rewrite Hp in Hi. rewrite Hf in Hj.
  injection Hi as <-. injection Hj as <-. lia.
Qed.

Lemma write_unique_logs_order_witness :
  exists i, persisted_at (dumps record1)
              (w_trace (snd (write_unique_logs env_online [record1] ∅ audit_filename
                               world_empty))) = Some i
            /\ (0 < i)%nat.
Proof.
  destruct (write_unique_logs_order env_online [record1] ∅ world_empty)
    as (rot & fwd & Htr & _ & _ & _ & Hord).
  cbn [w_trace world_empty app] in Htr. rewrite Htr.
  apply Hord. rewrite <- Htr. vm_compute. reflexivity.
Defined.

(** ** Deduplication and persistence *)

Lemma rotate_keeps_absent (env : environment) (w : world) :
  w_fs w !! audit_filename = None ->
  w_fs (rotate_audit_file env w) !! audit_filename = None.
Proof.
  intros Ha. pose proof audit_ne_backup as Hne. unfold rotate_audit_file.
  destruct (w_fs w !! backup_filename) as [b|]; [destruct (_ >? _) |]; cbn;
    rewrite ?lookup_delete_ne by done; rewrite Ha; cbn;
    rewrite ?lookup_delete_ne by done; done.
Qed.

Lemma append_empty_r (s : string) : s +:+ EmptyString = s.
Proof.
  induction s as [|c s IH]; [done |].
  change (String c (s +:+ EmptyString) = String c s). by rewrite IH.
Qed.

Lemma contents_append (env : environment) (filename : string) (lines : list string)
    (w : world) :
  contents (append_lines env filename lines w) =
  <[filename := default EmptyString (contents w !! filename) +:+ concat_lines lines]>
    (contents w).
Proof.
  unfold contents, append_lines. cbn. rewrite fmap_insert, lookup_fmap. cbn.
  by destruct (w_fs w !! filename).
Qed.

(** What one call leaves in the files: the state after rotation, with the
    admitted lines after what the audit file held. *)
Lemma contents_write_unique_logs (env : environment) (logs : list value)
    (seen : gset string) (filename : string) (w : world) :
  contents (snd (write_unique_logs env logs seen filename w)) =
  match admitted logs seen with
  | [] => contents (rotate_audit_file env w)
  | _ :: _ =>
      <[filename := default EmptyString (contents (rotate_audit_file env w) !! filename)
                    +:+ concat_lines (map line_of (admitted logs seen))]>
        (contents (rotate_audit_file env w))
  end.
Proof.
  rewrite write_unique_logs_eq. cbn [snd]. cbv zeta.
  destruct (admitted logs seen) as [|l ls].
  - unfold contents. by rewrite forward_fs.
  - rewrite contents_append. unfold contents. by rewrite forward_fs.
Qed.

(** A record that has been through the loop is in the set from then on. *)
Lemma seen_after_mono (logs : list value) (seen : gset string) :
  seen ⊆ seen_after logs seen.
Proof.
  revert seen. induction logs as [|log logs IH]; intros seen; [done |].
  cbn [seen_after]. case_decide; [apply IH |].
  etrans; [| apply IH]. apply union_subseteq_r.
Qed.

Lemma seen_after_cons_elem (log : value) (logs : list value) (seen : gset string) :
  fingerprint log ∈ seen_after (log :: logs) seen.
Proof.
  cbn [seen_after]. case_decide as Hin.
  - by apply seen_after_mono.
  - apply seen_after_mono, elem_of_union_l. by apply elem_of_singleton.
Qed.

(** Records that are new and pairwise different are all admitted. *)
Lemma admitted_all_new (logs : list value) (seen : gset string) :
  NoDup (map fingerprint logs) ->
  Forall (fun log => fingerprint log ∉ seen) logs ->
  admitted logs seen = map dumps logs
  /\ seen_after logs seen = list_to_set (map fingerprint logs) ∪ seen.
Proof.
  revert seen. induction logs as [|log logs IH]; intros seen Hnd Hnew.
  - cbn. split; [done | by rewrite (left_id_L ∅ (∪))].
  - cbn [map] in Hnd. apply NoDup_cons in Hnd as [Hfresh Hnd].
    apply Forall_cons in Hnew as [Hlog Hnew].
    cbn [admitted seen_after]. rewrite !decide_False by done.
    assert (Forall (fun l => fingerprint l ∉ {[fingerprint log]} ∪ seen) logs) as Hnew'.
    { apply Forall_forall. intros l Hl. rewrite Forall_forall in Hnew.
      intros [Heq%elem_of_singleton | Hin]%elem_of_union.
      - apply Hfresh. rewrite <- Heq. by apply list_elem_of_fmap_2.
      - by apply (Hnew l). }
    destruct (IH ({[fingerprint log]} ∪ seen) Hnd Hnew') as [Hadm Hseen].
    rewrite Hadm, Hseen. split; [done |]. cbn [map list_to_set].
    by rewrite (assoc_L (∪)), (comm_L (∪) (list_to_set _) {[_]}).
Qed.

Section Deduplicator.
Variable env : environment.

(** C4: from an empty set and with no audit file, the batch
    [{"id": 1}], [{"id": 2}], [{"id": 1}] leaves two lines in the audit
    file (written by one write of two lines, the only write of the call),
    two fingerprints in the set, and two calls of [tcp_sender.send].  And in
    general a record that has been through the loop is a duplicate at every
    later check against the same set: the step changes nothing. *)
Theorem dedup_admits_once (w : world) :
  w_fs w !! audit_filename = None ->
  let r := write_unique_logs env [record1; record2; record1] ∅ audit_filename w in
  contents (snd r) !! audit_filename
    = Some (line_of (dumps record1) +:+ line_of (dumps record2))
  /\ size (fst r) = 2%nat
  /\ (exists evs,
        w_trace (snd r) = w_trace w ++ evs
        /\ writes evs
           = [(audit_filename, [line_of (dumps record1); line_of (dumps record2)])]
        /\ sends evs = [dumps record1; dumps record2])
  /\ (forall (log : value) (more : list value) (acc : gset string * world * list string),
        let acc' := fold_left (dedup_step env) (log :: more) acc in
        dedup_step env acc' log = acc').
Proof.
  intros Habsent r.
  assert (admitted [record1; record2; record1] ∅ = [dumps record1; dumps record2])
    as Hadm by (vm_compute; reflexivity).
  assert (size (seen_after [record1; record2; record1] ∅) = 2%nat)
    as Hsize by (vm_compute; reflexivity).
  split; [| split; [| split]].
  - subst r. rewrite contents_write_unique_logs, Hadm, lookup_insert_eq.
    unfold contents. rewrite lookup_fmap, (rotate_keeps_absent env w Habsent).
    cbn [fmap option_fmap option_map default map concat_lines String.append].
    by rewrite append_empty_r.
  - subst r. by rewrite write_unique_logs_eq.
  - subst r.
    destruct (write_unique_logs_trace env [record1; record2; record1] ∅ w)
      as (rot & fwd & Htr & Hrot & Hfwd & Hsends).
    rewrite Hadm in Htr, Hsends. eexists. split; [exact Htr |].
    rewrite !writes_app, !sends_app.
    rewrite (rotation_no_write rot Hrot), (forwarder_no_write fwd Hfwd).
    rewrite (rotation_no_send rot Hrot), Hsends.
    split; reflexivity.
  - intros log more [[seen w0] new_events]. cbv zeta.
    rewrite fold_dedup_step. cbn [dedup_step].
    rewrite decide_True; [done |]. apply seen_after_cons_elem.
Qed.
End Deduplicator.

Lemma dedup_admits_once_witness :
  let r := write_unique_logs env_offline [record1; record2; record1] ∅ audit_filename
             world_empty in
  contents (snd r) !! audit_filename
    = Some (line_of (dumps record1) +:+ line_of (dumps record2))
  /\ size (fst r) = 2%nat
  /\ sends (w_trace (snd r)) = [dumps record1; dumps record2].
Proof.
  destruct (dedup_admits_once env_offline world_empty) as (H1 & H2 & _ & _).
  - apply lookup_empty.
  - split; [exact H1 | split; [exact H2 |]]. vm_compute. reflexivity.
Defined.

(** ** Persistence does not depend on forwarding *)

(** C9: two runs of [write_unique_logs] from the same world, in surroundings
    that agree on the clock reading taken by rotation and may differ in
    everything else (one may refuse every connection while the other
    delivers every record), end with the same set of fingerprints and the
    same file contents.  When the records are new and pairwise different,
    each of them is in the set afterwards and each of their lines is in the
    audit file, after what rotation left there: three records give three
    fingerprints and three lines. *)
Theorem forwarding_independence (env env' : environment) (logs : list value)
    (seen : gset string) (w : world) :
  time_time env (w_trace w) = time_time env' (w_trace w) ->
  let r := write_unique_logs env logs seen audit_filename w in
  let r' := write_unique_logs env' logs seen audit_filename w in
  fst r = fst r'
  /\ contents (snd r) = contents (snd r')
  /\ (NoDup (map fingerprint logs) ->
      Forall (fun log => fingerprint log ∉ seen) logs ->
      logs <> [] ->
      fst r = list_to_set (map fingerprint logs) ∪ seen
      /\ size (fst r) = (length logs + size seen)%nat
      /\ contents (snd r) !! audit_filename
         = Some (default EmptyString (contents (rotate_audit_file env w) !! audit_filename)
                 +:+ concat_lines (map (fun log => line_of (dumps log)) logs))).
Proof.
  intros Hclock r r'. subst r r'.
  split; [by rewrite !write_unique_logs_eq |].
  split; [by rewrite !contents_write_unique_logs, (rotate_ext env env' w Hclock) |].
  intros Hnd Hnew Hne.
  destruct (admitted_all_new logs seen Hnd Hnew) as [Hadm Hseen].
  split; [by rewrite write_unique_logs_eq |].
  split.
  - rewrite write_unique_logs_eq. cbn [fst]. rewrite Hseen.
    rewrite size_union, size_list_to_set, length_map; [done | done |].
    intros h Hh1 Hh2. apply elem_of_list_to_set, list_elem_of_fmap in Hh1 as (l & -> & Hl).
    rewrite Forall_forall in Hnew. by apply (Hnew l).
  - rewrite contents_write_unique_logs, Hadm.
    destruct logs as [|l ls]; [done |].
    cbn [map]. rewrite lookup_insert_eq. by rewrite map_map.
Qed.

Lemma forwarding_independence_witness :
  let r := write_unique_logs env_offline [record1; record2; record3] ∅ audit_filename
             world_empty in
  let r' := write_unique_logs env_online [record1; record2; record3] ∅ audit_filename
              world_empty in
  fst r = fst r'
  /\ contents (snd r) = contents (snd r')
  /\ size (fst r) = 3%nat
  /\ contents (snd r) !! audit_filename
     = Some (line_of (dumps record1) +:+ line_of (dumps record2)
             +:+ line_of (dumps record3))
  /\ sends (w_trace (snd r)) = [dumps record1; dumps record2; dumps record3]
  /\ forallb (fun e => match e with EvSendall _ _ => false | _ => true end)
       (w_trace (snd r)) = true.
Proof.
  destruct (forwarding_independence env_offline env_online [record1; record2; record3]
              ∅ world_empty eq_refl) as (H1 & H2 & H3).
  destruct H3 as (_ & H4 & H5).
  - cbn [map]. repeat constructor; vm_compute; intros H;
      repeat (apply elem_of_cons in H as [H|H]; [discriminate |]);
      by apply elem_of_nil in H.
  - repeat constructor; apply not_elem_of_empty.
  - discriminate.
  - split; [exact H1 | split; [exact H2 | split; [exact H4 |]]].
    split; [rewrite H5; vm_compute; reflexivity |].
    split; vm_compute; reflexivity.
Defined.

(** ** The poll loop *)

Lemma contiguous_snoc (ws : list (Z * Z)) (a b : Z * Z) :
  contiguous (ws ++ [a]) -> snd a = fst b -> contiguous ((ws ++ [a]) ++ [b]).
Proof.
  induction ws as [|x ws IH]; intros Hc Hab.
  - by cbn.
  - destruct ws as [|y ws].
    + cbn in *. tauto.
    + cbn [app contiguous] in *. destruct Hc as [Hxy Hc]. split; [done |].
      by apply IH.
Qed.

Section PollLoop.
Variable env : environment.

Lemma fetch_attempts_windows (start_dt end_dt : Z) (attempts : list nat) (w : world) :
  Forall (fun a => a <> 1%nat) attempts ->
  windows (w_trace (snd (fetch_attempts env start_dt end_dt attempts w)))
  = windows (w_trace w).
Proof.
  intros Hne. revert w. induction Hne as [|a rest Ha Hrest IH]; intros w; [done |].
  assert (windows (w_trace w ++ [EvGet start_dt end_dt a]) = windows (w_trace w)) as Hget.
  { rewrite windows_app. cbn. destruct a as [|[|a]]; [| done |]; by rewrite app_nil_r. }
  assert (windows (w_trace (snd (fetch_attempts env start_dt end_dt rest
            (emit (EvSleep (2 ^ Z.of_nat a)) (emit (EvGet start_dt end_dt a) w)))))
          = windows (w_trace w)) as Hretry.
  { rewrite IH. cbn [emit w_trace]. by rewrite windows_app, Hget, app_nil_r. }
  cbn [fetch_attempts].
  destruct (try_request env (requests_get env (w_trace w))) as [e|logs]; [| exact Hget].
  destruct (isinstance_Timeout e); [exact Hretry |].
  destruct (isinstance_RequestException e); [| exact Hget].
  destruct (Nat.eqb a MAX_RETRIES); [exact Hget | exact Hretry].
Qed.

(** Each call of [fetch_logs] queries one window, the one it was given. *)
Lemma fetch_logs_windows (start_dt end_dt : Z) (w : world) :
  windows (w_trace (snd (fetch_logs env start_dt end_dt w)))
  = windows (w_trace w) ++ [(start_dt, end_dt)].
Proof.
  assert (windows (w_trace w ++ [EvGet start_dt end_dt 1])
          = windows (w_trace w) ++ [(start_dt, end_dt)]) as Hget
    by (by rewrite windows_app).
  assert (Forall (fun a => a <> 1%nat) [2; 3; 4; 5]%nat) as Hrest
    by (repeat constructor; discriminate).
  assert (windows (w_trace (snd (fetch_attempts env start_dt end_dt [2; 3; 4; 5]%nat
            (emit (EvSleep (2 ^ Z.of_nat 1)) (emit (EvGet start_dt end_dt 1) w)))))
          = windows (w_trace w) ++ [(start_dt, end_dt)]) as Hretry.
  { rewrite (fetch_attempts_windows _ _ _ _ Hrest). cbn [emit w_trace].
    by rewrite windows_app, Hget, app_nil_r. }
  unfold fetch_logs. cbn [seq MAX_RETRIES fetch_attempts].
  destruct (try_request env (requests_get env (w_trace w))) as [e|logs]; [| exact Hget].
  destruct (isinstance_Timeout e); [exact Hretry |].
  destruct (isinstance_RequestException e); [| exact Hget].
  cbn [Nat.eqb]. exact Hretry.
Qed.

Lemma write_unique_logs_windows (logs : list value) (seen : gset string) (w : world) :
  windows (w_trace (snd (write_unique_logs env logs seen audit_filename w)))
  = windows (w_trace w).
Proof.
  destruct (write_unique_logs_trace env logs seen w) as (rot & fwd & Htr & Hrot & Hfwd & _).
  rewrite Htr, !windows_app, (rotation_no_window rot Hrot), (forwarder_no_window fwd Hfwd).
  destruct (admitted logs seen); cbn; by rewrite app_nil_r.
Qed.

(** One turn of the loop queries the window from [last_end_dt] to the
    instant read after the sleep, and leaves that instant in
    [last_end_dt], whatever the fetch returned. *)
Lemma poll_cycle_window (st : main_state) (w : world) :
  let now := datetime_now env (w_trace w ++ [EvSleep 60]) in
  windows (w_trace (snd (poll_cycle env (st, w))))
  = windows (w_trace w) ++ [(last_end_dt st, now)]
  /\ last_end_dt (fst (poll_cycle env (st, w))) = now.
Proof.
  cbv zeta. unfold poll_cycle.
  change (w_trace w ++ [EvSleep 60]) with (w_trace (emit (EvSleep 60) w)).
  set (w0 := emit (EvSleep 60) w).
  set (now := datetime_now env (w_trace w0)).
  pose proof (fetch_logs_windows (last_end_dt st) now w0) as Hf.
  destruct (fetch_logs env (last_end_dt st) now w0) as [logs_new w1].
  cbn [snd] in Hf.
  assert (windows (w_trace w0) = windows (w_trace w)) as Hw0
    by (subst w0; cbn [w_trace emit]; by rewrite windows_app, app_nil_r).
  rewrite Hw0 in Hf.
  destruct logs_new as [[|log logs]|];
    [cbn [fst snd last_end_dt]; by split | | cbn [fst snd last_end_dt]; by split].
  pose proof (write_unique_logs_windows (log :: logs) (seen_hashes st) w1) as Hw.
  destruct (write_unique_logs env (log :: logs) (seen_hashes st) audit_filename w1).
  cbn [snd fst last_end_dt] in *. by rewrite Hw.
Qed.

Lemma main_init_window (w : world) :
  let now := datetime_now env (w_trace w) in
  windows (w_trace (snd (main_init env w)))
  = windows (w_trace w) ++ [(now - 24 * 3600 * 1000000, now)]
  /\ last_end_dt (fst (main_init env w)) = now.
Proof.
  cbv zeta. unfold main_init, time_window.
  set (now := datetime_now env (w_trace w)).
  pose proof (fetch_logs_windows (now - 24 * 3600 * 1000000) now w) as Hf.
  destruct (fetch_logs env (now - 24 * 3600 * 1000000) now w) as [logs w1].
  cbn [snd] in Hf.
  destruct logs as [logs|]; [| cbn [fst snd last_end_dt]; by split].
  pose proof (write_unique_logs_windows logs
                (load_existing_event_hashes audit_filename w) w1) as Hw.
  destruct (write_unique_logs env logs _ audit_filename w1).
  cbn [snd fst last_end_dt] in *. by rewrite Hw.
Qed.

(** C6: up to the end of the [n]-th turn of the loop, [main] has queried
    [n + 1] windows, each ending where the next one starts, and
    [last_end_dt] is the end of the last one.  Every turn sets
    [last_end_dt] to the instant it read, whether its fetch brought
    records, brought none, or failed: the surroundings are arbitrary. *)
Theorem windows_contiguous (n : nat) (w : world) :
  (exists ws,
     windows (w_trace (snd (main env n w))) = windows (w_trace w) ++ ws
     /\ length ws = S n
     /\ contiguous ws
     /\ snd <$> last ws = Some (last_end_dt (fst (main env n w))))
  /\ (forall (st : main_state) (w0 : world),
        last_end_dt (fst (poll_cycle env (st, w0)))
        = datetime_now env (w_trace w0 ++ [EvSleep 60])).
Proof.
  split; [| intros st w0; apply poll_cycle_window].
  induction n as [|n IH].
  - destruct (main_init_window w) as [Hw Hl].
    unfold main. cbn [Nat.iter nat_rect]. rewrite Hw, Hl.
    eexists. split; [reflexivity |]. cbn. by repeat split.
  - destruct IH as (ws & Hws & Hlen & Hc & Hlast).
    unfold main in *. cbn [Nat.iter nat_rect].
    change (nat_rect _ (main_init env w) (fun _ => poll_cycle env) n)
      with (Nat.iter n (poll_cycle env) (main_init env w)).
    destruct (Nat.iter n (poll_cycle env) (main_init env w)) as [st w1].
    destruct (poll_cycle_window st w1) as [Hw Hl].
    cbn [fst snd] in *.
    destruct ws as [|x ws' _] using rev_ind; [discriminate |].
    rewrite last_snoc in Hlast. injection Hlast as Hlast.
    eexists ((ws' ++ [x]) ++ [_]).
    rewrite Hw, Hws, Hl, last_snoc, !length_app, <- app_assoc. cbn.
    rewrite length_app in Hlen. cbn in Hlen.
    split; [done | split; [lia | split; [| done]]].
    by apply contiguous_snoc.
Qed.
End PollLoop.

(** ** Fingerprints across a restart *)

(** C1 fails on the code.  [write_unique_logs] hashes the serialisation
    without the line feed it then writes after it, while
    [load_existing_event_hashes] hashes each line as the file iterator hands
    it over, line feed included.  For the record [{"id": 1}]: the set built
    at the restart holds another fingerprint than the one recorded at write
    time, the record is admitted again, forwarded again, and its line stands
    twice in the audit file. *)
Theorem restart_readmits_record :
  let run1 := write_unique_logs env_online [record1] ∅ audit_filename world_empty in
  let replayed := load_existing_event_hashes audit_filename (snd run1) in
  let run2 := write_unique_logs env_online [record1] replayed audit_filename (snd run1) in
  elements (fst run1)
    = ["354aaef7a5f6ecbb2faee49fbe47a24e024cb62b3183b853a1ecc01e01920e49"%string]
  /\ (fingerprint record1
      = "354aaef7a5f6ecbb2faee49fbe47a24e024cb62b3183b853a1ecc01e01920e49"%string)
  /\ contents (snd run1) !! audit_filename = Some (line_of (dumps record1))
  /\ read_lines (File (line_of (dumps record1)) 0) = [line_of (dumps record1)]
  /\ elements replayed
     = ["82b0cf5da91b6a7e02f031e2da2fa5ed1261dce4c85ae20d63db9d1e84a4c384"%string]
  /\ (fingerprint record1 ∉ replayed)
  /\ admitted [record1] replayed = [dumps record1]
  /\ sends (w_trace (snd run2)) = [dumps record1; dumps record1]
  /\ contents (snd run2) !! audit_filename
     = Some (line_of (dumps record1) +:+ line_of (dumps record1)).
Proof.
  cbv zeta.
  assert (elements (load_existing_event_hashes audit_filename
            (snd (write_unique_logs env_online [record1] ∅ audit_filename world_empty)))
          = ["82b0cf5da91b6a7e02f031e2da2fa5ed1261dce4c85ae20d63db9d1e84a4c384"%string])
    as Hreplay by (vm_compute; reflexivity).
  assert (fingerprint record1
          = "354aaef7a5f6ecbb2faee49fbe47a24e024cb62b3183b853a1ecc01e01920e49"%string)
    as Hfp by (vm_compute; reflexivity).
  split; [vm_compute; reflexivity |].
  split; [exact Hfp |].
  split; [vm_compute; reflexivity |].
  split; [vm_compute; reflexivity |].
  split; [exact Hreplay |].
  split.
  { rewrite <- elem_of_elements, Hreplay, Hfp, list_elem_of_singleton. discriminate. }
  split; [vm_compute; reflexivity |].
  split; vm_compute; reflexivity.
Qed.

(** * Properties beyond the claims *)

(** ** The fetcher: bounds, exhaustion on errors, recovery *)

Section FetcherBounds.
Variable env : environment.
Variables start_dt end_dt : Z.

Lemma requests_app (tr1 tr2 : list event) :
  requests (tr1 ++ tr2) = (requests tr1 + requests tr2)%nat.
Proof.
  induction tr1 as [|e tr1 IH]; [done |].
  cbn [app requests fold_right]. fold (requests (tr1 ++ tr2)) (requests tr1). lia.
Qed.

Lemma slept_app (tr1 tr2 : list event) : slept (tr1 ++ tr2) = slept tr1 + slept tr2.
Proof.
  induction tr1 as [|e tr1 IH]; [done |].
  cbn [app slept fold_right]. fold (slept (tr1 ++ tr2)) (slept tr1). lia.
Qed.

Lemma fetch_attempts_bounded (attempts : list nat) (w : world) :
  let r := fetch_attempts env start_dt end_dt attempts w in
  w_fs (snd r) = w_fs w
  /\ w_sock (snd r) = w_sock w
  /\ exists evs,
       w_trace (snd r) = w_trace w ++ evs
       /\ forallb is_fetch_event evs = true
       /\ (requests evs <= length attempts)%nat
       /\ 0 <= slept evs <= fold_right (fun a acc => 2 ^ Z.of_nat a + acc) 0 attempts.
Proof.
  cbv zeta. revert w. induction attempts as [|a rest IH]; intros w.
  - cbn. repeat split; try done. exists []. rewrite app_nil_r. cbn. repeat split; lia.
  - assert (0 < 2 ^ Z.of_nat a) as Hpow by (apply Z.pow_pos_nonneg; lia).
    assert (0 <= fold_right (fun a acc => 2 ^ Z.of_nat a + acc) 0 rest) as Hsum.
    { clear. induction rest as [|b rest IH]; cbn; [lia |].
      assert (0 < 2 ^ Z.of_nat b) by (apply Z.pow_pos_nonneg; lia). lia. }
    assert (let r := (@None (list value), emit (EvGet start_dt end_dt a) w) in
            w_fs (snd r) = w_fs w /\ w_sock (snd r) = w_sock w
            /\ exists evs, w_trace (snd r) = w_trace w ++ evs
                 /\ forallb is_fetch_event evs = true
                 /\ (requests evs <= length (a :: rest))%nat
                 /\ 0 <= slept evs
                    <= fold_right (fun a acc => 2 ^ Z.of_nat a + acc) 0 (a :: rest)) as Hstop.
    { cbn. repeat split; try done. exists [EvGet start_dt end_dt a].
      cbn. repeat split; lia. }
    cbn [fetch_attempts].
    specialize (IH (emit (EvSleep (2 ^ Z.of_nat a)) (emit (EvGet start_dt end_dt a) w))).
    destruct IH as (Hfs & Hsock & evs & Htr & Hev & Hreq & Hsl).
    assert (let r := fetch_attempts env start_dt end_dt rest
                       (emit (EvSleep (2 ^ Z.of_nat a)) (emit (EvGet start_dt end_dt a) w)) in
            w_fs (snd r) = w_fs w /\ w_sock (snd r) = w_sock w
            /\ exists evs, w_trace (snd r) = w_trace w ++ evs
                 /\ forallb is_fetch_event evs = true
                 /\ (requests evs <= length (a :: rest))%nat
                 /\ 0 <= slept evs
                    <= fold_right (fun a acc => 2 ^ Z.of_nat a + acc) 0 (a :: rest)) as Hretry.
    { cbv zeta. split; [exact Hfs | split; [exact Hsock |]].
      exists ([EvGet start_dt end_dt a; EvSleep (2 ^ Z.of_nat a)] ++ evs).
      rewrite Htr. cbn [emit w_trace]. rewrite <- !app_assoc.
      split; [done |]. rewrite forallb_app, requests_app, slept_app, Hev.
      cbn. repeat split; lia. }
    destruct (try_request env (requests_get env (w_trace w))) as [e|logs].
    + destruct (isinstance_Timeout e); [exact Hretry |].
      destruct (isinstance_RequestException e); [| exact Hstop].
      destruct (Nat.eqb a MAX_RETRIES); [exact Hstop | exact Hretry].
    + exact Hstop.
Qed.

(** X1: whatever the server does, one call of [fetch_logs] issues between
    one and five requests, sleeps 62 seconds at most, does nothing else to
    the outside, and leaves files and socket as they were. *)
Theorem fetch_logs_bounded (w : world) :
  let r := fetch_logs env start_dt end_dt w in
  w_fs (snd r) = w_fs w
  /\ w_sock (snd r) = w_sock w
  /\ exists evs,
       w_trace (snd r) = w_trace w ++ evs
       /\ forallb is_fetch_event evs = true
       /\ (1 <= requests evs <= 5)%nat
       /\ 0 <= slept evs <= 62.
Proof.
  cbv zeta. unfold fetch_logs. cbn [seq MAX_RETRIES fetch_attempts].
  assert (let r := (@None (list value), emit (EvGet start_dt end_dt 1) w) in
          w_fs (snd r) = w_fs w /\ w_sock (snd r) = w_sock w
          /\ exists evs, w_trace (snd r) = w_trace w ++ evs
               /\ forallb is_fetch_event evs = true
               /\ (1 <= requests evs <= 5)%nat /\ 0 <= slept evs <= 62) as Hstop.
  { cbn. repeat split; try done. exists [EvGet start_dt end_dt 1].
    cbn. repeat split; lia. }
  destruct (fetch_attempts_bounded [2; 3; 4; 5]%nat
              (emit (EvSleep (2 ^ Z.of_nat 1)) (emit (EvGet start_dt end_dt 1) w)))
    as (Hfs & Hsock & evs & Htr & Hev & Hreq & Hsl).
  assert (let r := fetch_attempts env start_dt end_dt [2; 3; 4; 5]%nat
                     (emit (EvSleep (2 ^ Z.of_nat 1)) (emit (EvGet start_dt end_dt 1) w)) in
          w_fs (snd r) = w_fs w /\ w_sock (snd r) = w_sock w
          /\ exists evs, w_trace (snd r) = w_trace w ++ evs
               /\ forallb is_fetch_event evs = true
               /\ (1 <= requests evs <= 5)%nat /\ 0 <= slept evs <= 62) as Hretry.
  { cbv zeta. split; [exact Hfs | split; [exact Hsock |]].
    exists ([EvGet start_dt end_dt 1; EvSleep 2] ++ evs).
    rewrite Htr. cbn [emit w_trace]. rewrite <- !app_assoc.
    split; [done |]. rewrite forallb_app, requests_app, slept_app, Hev.
    cbn in Hreq, Hsl |- *. repeat split; lia. }
  destruct (try_request env (requests_get env (w_trace w))) as [e|logs].
  - destruct (isinstance_Timeout e); [exact Hretry |].
    destruct (isinstance_RequestException e); [| exact Hstop].
    cbn [Nat.eqb]. exact Hretry.
  - exact Hstop.
Qed.

(** X2: when every request of the call raises a request exception other
    than a timeout, [fetch_logs] returns [None] right after the fifth
    request: it has slept 2, 4, 8 and 16 seconds, and does not sleep after
    the last attempt (as it does when the last attempt times out). *)
Theorem fetch_logs_http_error_exhaustion (w : world) :
  (forall evs, requests_get env (w_trace w ++ evs) = RaisesRequestException) ->
  fetch_logs env start_dt end_dt w =
  (None,
   World (w_fs w) (w_sock w)
     (w_trace w ++
      [EvGet start_dt end_dt 1; EvSleep 2; EvGet start_dt end_dt 2; EvSleep 4;
       EvGet start_dt end_dt 3; EvSleep 8; EvGet start_dt end_dt 4; EvSleep 16;
       EvGet start_dt end_dt 5])).
Proof.
  intros Herr. unfold fetch_logs. cbn [seq MAX_RETRIES].
  pose proof (Herr []) as H0. rewrite app_nil_r in H0.
  cbn [fetch_attempts]. rewrite H0.
  cbn [try_request isinstance_Timeout isinstance_RequestException Nat.eqb MAX_RETRIES].
  do 4 (cbn [fetch_attempts emit w_trace w_fs w_sock]; rewrite <- ?app_assoc;
        rewrite Herr;
        cbn [try_request isinstance_Timeout isinstance_RequestException Nat.eqb
             MAX_RETRIES]).
  unfold emit. cbn [w_trace w_fs w_sock]. by rewrite <- !app_assoc.
Qed.

Lemma fetch_attempts_recover (k : nat) :
  forall (a n : nat) (w : world) (r : response) (logs : list value),
    (k < n)%nat -> (a + k <= MAX_RETRIES)%nat ->
    (forall j, (j < k)%nat ->
               raised (requests_get env (w_trace w ++ retries start_dt end_dt a j)) = true) ->
    requests_get env (w_trace w ++ retries start_dt end_dt a k) = Returns r ->
    strip_is_empty (content r) = false ->
    json r = Decoded (JList logs) ->
    fetch_attempts env start_dt end_dt (seq a n) w =
    (Some logs,
     World (w_fs w) (w_sock w)
       (w_trace w ++ retries start_dt end_dt a k ++ [EvGet start_dt end_dt (a + k)])).
Proof.
  induction k as [|k IH]; intros a n w r logs Hkn Hak Hfail Hret Hbody Hjson.
  - destruct n as [|n]; [lia |]. cbn [seq fetch_attempts].
    unfold retries in Hret. cbn [seq flat_map] in Hret. rewrite app_nil_r in Hret.
    rewrite Hret. unfold try_request. rewrite Hbody, Hjson.
    unfold retries. cbn. by rewrite Nat.add_0_r.
  - destruct n as [|n]; [lia |]. cbn [seq fetch_attempts].
    pose proof (Hfail O ltac:(lia)) as H0.
    unfold retries in H0. cbn [seq flat_map] in H0. rewrite app_nil_r in H0.
    assert (fetch_attempts env start_dt end_dt (seq (S a) n)
              (emit (EvSleep (2 ^ Z.of_nat a)) (emit (EvGet start_dt end_dt a) w))
            = (Some logs,
               World (w_fs w) (w_sock w)
                 (w_trace w ++ retries start_dt end_dt a (S k)
                  ++ [EvGet start_dt end_dt (a + S k)]))) as Hrest.
    { rewrite (IH (S a) n _ r logs); try done; try lia.
      - cbn [emit w_trace w_fs w_sock]. unfold retries. cbn [seq flat_map].
        rewrite <- !app_assoc. cbn [app]. by rewrite Nat.add_succ_r.
      - intros j Hj. specialize (Hfail (S j) ltac:(lia)).
        cbn [emit w_trace]. unfold retries in *. cbn [seq flat_map] in Hfail.
        by rewrite <- !app_assoc.
      - cbn [emit w_trace]. unfold retries in *. cbn [seq flat_map] in Hret.
        by rewrite <- !app_assoc. }
    destruct (requests_get env (w_trace w)) as [| |r0]; [| | discriminate].
    + cbn [try_request isinstance_Timeout]. exact Hrest.
    + cbn [try_request isinstance_Timeout isinstance_RequestException].
      rewrite (proj2 (Nat.eqb_neq a MAX_RETRIES)) by lia. exact Hrest.
Qed.

(** X3: when the first [k] attempts ([k] at most 4) each raise a timeout or
    another request exception and the next one brings a JSON list,
    [fetch_logs] returns the items of that list: it has made [k + 1]
    requests and slept after each of the first [k]. *)
Theorem fetch_logs_recovers (k : nat) (w : world) (r : response) (logs : list value) :
  (k < MAX_RETRIES)%nat ->
  (forall j, (j < k)%nat ->
             raised (requests_get env (w_trace w ++ retries start_dt end_dt 1 j)) = true) ->
  requests_get env (w_trace w ++ retries start_dt end_dt 1 k) = Returns r ->
  strip_is_empty (content r) = false ->
  json r = Decoded (JList logs) ->
  fetch_logs env start_dt end_dt w =
  (Some logs,
   World (w_fs w) (w_sock w)
     (w_trace w ++ retries start_dt end_dt 1 k ++ [EvGet start_dt end_dt (S k)])).
Proof.
  intros Hk Hfail Hret Hbody Hjson. unfold fetch_logs.
  by apply (fetch_attempts_recover k 1 MAX_RETRIES w r logs).
Qed.
End FetcherBounds.

(** ** The archive rotator: what one call, and two, leave behind *)

Section RotatorMore.
Variable env : environment.

(** The file system after the age test alone. *)
Lemma rotate_fs (w : world) :
  w_fs (rotate_audit_file env w) =
  let fs1 :=
    match w_fs w !! backup_filename with
    | Some b =>
        if time_time env (w_trace w) - f_mtime b >? BACKUP_MAX_AGE_SECS
        then delete backup_filename (w_fs w) else w_fs w
    | None => w_fs w
    end in
  match w_fs w !! audit_filename with
  | Some a =>
      if os_path_getsize a >=? MAX_AUDIT_FILESIZE
      then <[backup_filename := a]> (delete audit_filename (delete backup_filename (w_fs w)))
      else fs1
  | None => fs1
  end.
Proof.
  pose proof audit_ne_backup as Hne. cbv zeta. unfold rotate_audit_file.
  destruct (w_fs w !! backup_filename) as [b|] eqn:Hb.
  - destruct (_ >? _).
    + cbn. rewrite lookup_delete_ne by done.
      destruct (w_fs w !! audit_filename) as [a|] eqn:Ha; [| done].
      destruct (_ >=? _); [| done].
      rewrite os_path_exists_None by (cbn; apply lookup_delete_eq).
      unfold os_rename. cbn. rewrite lookup_delete_ne, Ha by done. cbn.
      done.
    + destruct (w_fs w !! audit_filename) as [a|] eqn:Ha; [| done].
      destruct (_ >=? _); [| done].
      rewrite (os_path_exists_Some _ _ _ Hb).
      unfold os_rename. cbn. rewrite lookup_delete_ne, Ha by done. cbn.
      done.
  - destruct (w_fs w !! audit_filename) as [a|] eqn:Ha; [| done].
    destruct (_ >=? _); [| done].
    rewrite (os_path_exists_None _ _ Hb).
    unfold os_rename. rewrite Ha. cbn.
    by rewrite (delete_id (w_fs w) backup_filename).
Qed.

(** X4: after [rotate_audit_file], whatever the state before, the audit
    file is absent or below 10 MiB: no rotation is due any more. *)
Theorem rotate_clears_threshold (w : world) :
  rotation_due (rotate_audit_file env w) = false.
Proof.
  pose proof audit_ne_backup as Hne.
  unfold rotation_due at 1. rewrite rotate_fs. cbv zeta.
  assert (match w_fs w !! backup_filename with
          | Some b =>
              if time_time env (w_trace w) - f_mtime b >? BACKUP_MAX_AGE_SECS
              then delete backup_filename (w_fs w) else w_fs w
          | None => w_fs w
          end !! audit_filename = w_fs w !! audit_filename) as Hfs1.
  { destruct (w_fs w !! backup_filename) as [b|]; [destruct (_ >? _) |];
      by rewrite ?lookup_delete_ne by done. }
  destruct (w_fs w !! audit_filename) as [a|] eqn:Ha.
  - destruct (os_path_getsize a >=? MAX_AUDIT_FILESIZE) eqn:Hsize.
    + by rewrite lookup_insert_ne, lookup_delete_eq by done.
    + by rewrite Hfs1, Hsize.
  - by rewrite Hfs1.
Qed.

(** X5: rotation never drops the audit file's data and touches no other
    path: the file that was at the audit path is afterwards still there
    (no rotation was due) or at the backup path (rotation was due). *)
Theorem rotate_keeps_audit_data (w : world) (a : file) :
  w_fs w !! audit_filename = Some a ->
  let w' := rotate_audit_file env w in
  (if rotation_due w
   then w_fs w' !! audit_filename = None /\ w_fs w' !! backup_filename = Some a
   else w_fs w' !! audit_filename = Some a)
  /\ (forall p, p <> audit_filename -> p <> backup_filename ->
                w_fs w' !! p = w_fs w !! p).
Proof.
  intros Ha. pose proof audit_ne_backup as Hne.
  cbv zeta. unfold rotation_due. rewrite rotate_fs, Ha. cbv zeta.
  destruct (os_path_getsize a >=? MAX_AUDIT_FILESIZE).
  - split; [split |].
    + by rewrite lookup_insert_ne, lookup_delete_eq by done.
    + by rewrite lookup_insert_eq.
    + intros p Hp1 Hp2. by rewrite lookup_insert_ne, !lookup_delete_ne by done.
  - destruct (w_fs w !! backup_filename) as [b|]; [destruct (_ >? _) |];
      (split; [| intros p Hp1 Hp2]); by rewrite ?lookup_delete_ne by done.
Qed.

(** X6: with no backup older than an hour and no rotation due,
    [rotate_audit_file] changes nothing and does nothing. *)
Theorem rotate_nothing_to_do (w : world) :
  (forall b, w_fs w !! backup_filename = Some b ->
             time_time env (w_trace w) - f_mtime b <= BACKUP_MAX_AGE_SECS) ->
  rotation_due w = false ->
  rotate_audit_file env w = w.
Proof.
  intros Hyoung Hdue. unfold rotate_audit_file, rotation_due in *.
  destruct (w_fs w !! backup_filename) as [b|].
  - specialize (Hyoung b eq_refl).
    destruct (_ >? _) eqn:Hgt; [apply Z.gtb_lt in Hgt; lia |].
    destruct (w_fs w !! audit_filename) as [a|]; [by rewrite Hdue | done].
  - destruct (w_fs w !! audit_filename) as [a|]; [by rewrite Hdue | done].
Qed.

(** X7: the backup's age is counted from the last write to the audit file,
    since the rename keeps the modification time.  So when a full audit
    file was last written more than an hour ago, the call that rotates it
    is followed by a call that deletes it: after two calls neither path
    holds the data. *)
Theorem rotate_twice_drops_stale_data (w : world) (a : file) :
  w_fs w !! audit_filename = Some a ->
  MAX_AUDIT_FILESIZE <= os_path_getsize a ->
  let w1 := rotate_audit_file env w in
  time_time env (w_trace w1) - f_mtime a > BACKUP_MAX_AGE_SECS ->
  let w2 := rotate_audit_file env w1 in
  w_fs w1 !! backup_filename = Some a
  /\ w_fs w2 !! audit_filename = None
  /\ w_fs w2 !! backup_filename = None.
Proof.
  intros Ha Hsize w1 Hage w2. pose proof audit_ne_backup as Hne.
  apply Z.geb_le in Hsize. apply Z.gt_lt, Z.gtb_lt in Hage.
  assert (w_fs w1 !! backup_filename = Some a) as Hb1.
  { subst w1. rewrite rotate_fs, Ha, Hsize. by rewrite lookup_insert_eq. }
  assert (w_fs w1 !! audit_filename = None) as Ha1.
  { subst w1. rewrite rotate_fs, Ha, Hsize.
    by rewrite lookup_insert_ne, lookup_delete_eq by done. }
  split; [exact Hb1 |].
  subst w2. rewrite rotate_fs, Ha1, Hb1, Hage.
  by rewrite lookup_delete_ne, lookup_delete_eq by done.
Qed.
End RotatorMore.

(** ** The deduplicator and the writer *)

Lemma seen_after_union (logs : list value) (seen : gset string) :
  seen_after logs seen = seen ∪ list_to_set (map fingerprint logs).
Proof.
  revert seen. induction logs as [|log logs IH]; intros seen.
  - cbn. by rewrite (right_id_L ∅ (∪)).
  - cbn [seen_after map list_to_set]. case_decide as Hin; rewrite IH.
    + apply set_eq. intros x. rewrite !elem_of_union, elem_of_singleton.
      split; [tauto |]. intros [H | [-> | H]]; tauto.
    + apply set_eq. intros x. rewrite !elem_of_union, elem_of_singleton. tauto.
Qed.

Lemma admitted_fresh (logs : list value) (seen : gset string) (l : string) :
  l ∈ admitted logs seen -> sha256_hexdigest l ∉ seen.
Proof.
  revert seen. induction logs as [|log logs IH]; intros seen; [by intros ?%elem_of_nil |].
  cbn [admitted]. case_decide as Hin; [apply IH |].
  intros [-> | Hl]%elem_of_cons; [exact Hin |].
  specialize (IH _ Hl). intros Hs. apply IH, elem_of_union_r, Hs.
Qed.

Lemma admitted_NoDup (logs : list value) (seen : gset string) :
  NoDup (map sha256_hexdigest (admitted logs seen)).
Proof.
  revert seen. induction logs as [|log logs IH]; intros seen; [constructor |].
  cbn [admitted]. case_decide as Hin; [apply IH |].
  cbn [map]. apply NoDup_cons. split; [| apply IH].
  intros (l & Heq & Hl)%list_elem_of_fmap.
  apply admitted_fresh in Hl. apply Hl, elem_of_union_l, elem_of_singleton.
  by rewrite <- Heq.
Qed.

Lemma admitted_sublist (logs : list value) (seen : gset string) :
  admitted logs seen `sublist_of` map dumps logs.
Proof.
  revert seen. induction logs as [|log logs IH]; intros seen; [constructor |].
  cbn [admitted map]. case_decide; [apply sublist_cons, IH | apply sublist_skip, IH].
Qed.

Lemma admitted_all_seen (logs : list value) (seen : gset string) :
  Forall (fun log => fingerprint log ∈ seen) logs ->
  admitted logs seen = [] /\ seen_after logs seen = seen.
Proof.
  induction 1 as [|log logs Hin Hall IH]; [done |].
  cbn [admitted seen_after]. by rewrite !decide_True by done.
Qed.

Lemma rotate_audit_when_not_due (env : environment) (w : world) :
  rotation_due w = false ->
  w_fs (rotate_audit_file env w) !! audit_filename = w_fs w !! audit_filename.
Proof.
  intros Hdue. pose proof audit_ne_backup as Hne.
  rewrite rotate_fs. cbv zeta. unfold rotation_due in Hdue.
  assert (match w_fs w !! backup_filename with
          | Some b =>
              if time_time env (w_trace w) - f_mtime b >? BACKUP_MAX_AGE_SECS
              then delete backup_filename (w_fs w) else w_fs w
          | None => w_fs w
          end !! audit_filename = w_fs w !! audit_filename) as Hfs1.
  { destruct (w_fs w !! backup_filename) as [b|]; [destruct (_ >? _) |];
      by rewrite ?lookup_delete_ne by done. }
  destruct (w_fs w !! audit_filename) as [a|] eqn:Ha; [| by rewrite Hfs1].
  rewrite Hdue. by rewrite Hfs1.
Qed.

Section WriterMore.
Variable env : environment.

(** The events of one call, with what was handed to the forwarder and what
    was written. *)
Lemma write_unique_logs_events (logs : list value) (seen : gset string) (w : world) :
  exists evs,
    w_trace (snd (write_unique_logs env logs seen audit_filename w)) = w_trace w ++ evs
    /\ sends evs = admitted logs seen
    /\ lines_written evs = map line_of (admitted logs seen)
    /\ (admitted logs seen = [] -> forallb is_rotation_event evs = true).
Proof.
  destruct (admitted logs seen) as [|l ls] eqn:Hadm.
  - destruct (rotate_trace env w) as (rot & Htr & Hrot).
    exists rot. rewrite write_unique_logs_eq, Hadm. cbn [snd forward fold_left].
    unfold lines_written.
    by rewrite Htr, (rotation_no_send rot Hrot), (rotation_no_write rot Hrot).
  - destruct (write_unique_logs_trace env logs seen w)
      as (rot & fwd & Htr & Hrot & Hfwd & Hs).
    rewrite Hadm in Htr, Hs.
    eexists. split; [exact Htr |]. unfold lines_written.
    rewrite !sends_app, !writes_app, (rotation_no_send rot Hrot), Hs.
    rewrite (rotation_no_write rot Hrot), (forwarder_no_write fwd Hfwd).
    cbn. by rewrite !app_nil_r.
Qed.

(** X8: after a call the set is the old set together with the fingerprints
    of all records of the batch: it never shrinks, and every record of the
    batch is in it. *)
Theorem write_unique_logs_seen (logs : list value) (seen : gset string) (filename : string)
    (w : world) :
  fst (write_unique_logs env logs seen filename w)
  = seen ∪ list_to_set (map fingerprint logs).
Proof. by rewrite write_unique_logs_eq, seen_after_union. Qed.

(** X9: the serialisations handed to [tcp_sender.send] in one call have
    pairwise different fingerprints, none of which was in the set before,
    and they come in the order of the batch. *)
Theorem write_unique_logs_sends_distinct (logs : list value) (seen : gset string)
    (w : world) :
  exists evs,
    w_trace (snd (write_unique_logs env logs seen audit_filename w)) = w_trace w ++ evs
    /\ NoDup (map sha256_hexdigest (sends evs))
    /\ Forall (fun json_line => sha256_hexdigest json_line ∉ seen) (sends evs)
    /\ sends evs `sublist_of` map dumps logs.
Proof.
  destruct (write_unique_logs_events logs seen w) as (evs & Htr & Hs & _).
  exists evs. rewrite Hs. split; [exact Htr |].
  split; [apply admitted_NoDup |]. split; [| apply admitted_sublist].
  apply Forall_forall. intros l Hl. by apply (admitted_fresh logs).
Qed.

(** X10: a batch whose records are all in the set already (the empty batch
    among them) changes neither the set nor any file and forwards nothing:
    the call is the rotation alone. *)
Theorem write_unique_logs_all_seen (logs : list value) (seen : gset string)
    (filename : string) (w : world) :
  Forall (fun log => fingerprint log ∈ seen) logs ->
  write_unique_logs env logs seen filename w = (seen, rotate_audit_file env w).
Proof.
  intros Hall. destruct (admitted_all_seen logs seen Hall) as [Hadm Hseen].
  by rewrite write_unique_logs_eq, Hadm, Hseen.
Qed.

(** X11: handing the same batch to [write_unique_logs] again, with the set
    the first call returned, admits nothing: the second call is the
    rotation alone. *)
Theorem write_unique_logs_repeat (logs : list value) (seen : gset string)
    (filename : string) (w : world) :
  let r1 := write_unique_logs env logs seen filename w in
  write_unique_logs env logs (fst r1) filename (snd r1)
  = (fst r1, rotate_audit_file env (snd r1)).
Proof.
  cbv zeta. rewrite (write_unique_logs_eq env logs seen). cbn [fst snd].
  destruct (admitted_all_seen logs (seen_after logs seen)) as [Hadm Hseen].
  { rewrite seen_after_union. apply Forall_forall. intros log Hlog.
    apply elem_of_union_r, elem_of_list_to_set. by apply list_elem_of_fmap_2. }
  by rewrite write_unique_logs_eq, Hadm, Hseen.
Qed.

(** X12: when no rotation is due, the call only appends: the audit file
    holds afterwards what it held before, followed by the lines of the
    records handed to the forwarder, in order. *)
Theorem write_unique_logs_appends (logs : list value) (seen : gset string) (w : world)
    (a : file) :
  rotation_due w = false ->
  w_fs w !! audit_filename = Some a ->
  exists evs,
    w_trace (snd (write_unique_logs env logs seen audit_filename w)) = w_trace w ++ evs
    /\ contents (snd (write_unique_logs env logs seen audit_filename w)) !! audit_filename
       = Some (f_data a +:+ concat_lines (map line_of (sends evs))).
Proof.
  intros Hdue Ha.
  destruct (write_unique_logs_events logs seen w) as (evs & Htr & Hs & _).
  exists evs. split; [exact Htr |]. rewrite Hs, contents_write_unique_logs.
  assert (contents (rotate_audit_file env w) !! audit_filename = Some (f_data a)) as Hc.
  { unfold contents. by rewrite lookup_fmap, (rotate_audit_when_not_due env w Hdue), Ha. }
  destruct (admitted logs seen) as [|l ls].
  - rewrite Hc. cbn [map concat_lines]. by rewrite append_empty_r.
  - by rewrite lookup_insert_eq, Hc.
Qed.

(** X13: when rotation is due, the old audit file goes to the backup path
    whole, and the audit file holds afterwards the lines of this call and
    nothing else (it is absent when nothing was admitted). *)
Theorem write_unique_logs_after_rotation (logs : list value) (seen : gset string)
    (w : world) (a : file) :
  rotation_due w = true ->
  w_fs w !! audit_filename = Some a ->
  exists evs,
    w_trace (snd (write_unique_logs env logs seen audit_filename w)) = w_trace w ++ evs
    /\ contents (snd (write_unique_logs env logs seen audit_filename w)) !! backup_filename
       = Some (f_data a)
    /\ contents (snd (write_unique_logs env logs seen audit_filename w)) !! audit_filename
       = match sends evs with
         | [] => None
         | _ :: _ => Some (concat_lines (map line_of (sends evs)))
         end.
Proof.
  intros Hdue Ha. pose proof audit_ne_backup as Hne.
  destruct (write_unique_logs_events logs seen w) as (evs & Htr & Hs & _).
  exists evs. split; [exact Htr |]. rewrite Hs, contents_write_unique_logs.
  unfold rotation_due in Hdue. rewrite Ha in Hdue.
  assert (contents (rotate_audit_file env w) !! backup_filename = Some (f_data a)) as Hb.
  { unfold contents. rewrite lookup_fmap, rotate_fs, Ha, Hdue.
    by rewrite lookup_insert_eq. }
  assert (contents (rotate_audit_file env w) !! audit_filename = None) as Hc.
  { unfold contents. rewrite lookup_fmap, rotate_fs, Ha, Hdue.
    by rewrite lookup_insert_ne, lookup_delete_eq by done. }
  destruct (admitted logs seen) as [|l ls]; [done |].
  rewrite lookup_insert_ne, lookup_insert_eq, Hb, Hc by done. done.
Qed.
End WriterMore.

(** ** The forwarder *)

Lemma delivered_app (tr1 tr2 : list event) :
  delivered (tr1 ++ tr2) = delivered tr1 ++ delivered tr2.
Proof. apply flat_map_app. Qed.

Lemma rotation_no_delivery (evs : list event) :
  forallb is_rotation_event evs = true -> delivered evs = [].
Proof.
  induction evs as [|e evs IH]; [done |].
  cbn [forallb]. intros [He Hevs]%andb_prop.
  change (delivered (e :: evs)) with (delivered_of e ++ delivered evs).
  rewrite (IH Hevs). by destruct e.
Qed.

Ltac aux_split :=
  split; [reflexivity | split; [reflexivity | split; [reflexivity | split]]].

Section Forwarder.
Variable env : environment.

Lemma send_delivers_or_drops_aux (data : string) (w : world) :
  exists evs,
    w_trace (TcpLogSender.send env data w) = w_trace w ++ EvSend data :: evs
    /\ forallb is_forwarder_event evs = true
    /\ sends evs = []
    /\ (delivered evs = [line_of data] \/ delivered evs = [])
    /\ ((forall h, create_connection env h = true) -> (forall h, sendall env h = true) ->
        delivered evs = [line_of data]).
Proof.
  destruct w as [fs sock tr].
  unfold TcpLogSender.send, TcpLogSender.connect, emit, set_sock. cbn -[line_of].
  destruct sock.
  - destruct (sendall env _) eqn:Hsa; cbn -[line_of]; rewrite <- ?app_assoc;
      eexists; aux_split;
      [by left | done | by right | intros _ Hall; by rewrite Hall in Hsa].
  - destruct (create_connection env _) eqn:Hc; cbn -[line_of].
    + destruct (sendall env _) eqn:Hsa; cbn -[line_of]; rewrite <- ?app_assoc;
        eexists; aux_split;
        [by left | done | by right | intros _ Hall; by rewrite Hall in Hsa].
    + rewrite <- ?app_assoc. eexists. aux_split; [by right |].
      intros Hall _. by rewrite Hall in Hc.
Qed.

(** X14: a call of [send] touches no file, makes no second call of itself,
    and ends with the socket held exactly when the line (the data and a
    line feed) was accepted by [sendall] in this call; otherwise nothing
    was delivered and the socket is closed. *)
Theorem send_delivers_or_drops (data : string) (w : world) :
  let w' := TcpLogSender.send env data w in
  w_fs w' = w_fs w
  /\ exists evs,
       w_trace w' = w_trace w ++ EvSend data :: evs
       /\ forallb is_forwarder_event evs = true
       /\ sends evs = []
       /\ delivered evs = if w_sock w' then [line_of data] else [].
Proof.
  cbv zeta. split; [apply send_fs |].
  destruct w as [fs sock tr].
  unfold TcpLogSender.send, TcpLogSender.connect, emit, set_sock. cbn -[line_of].
  destruct sock; [| destruct (create_connection env _); cbn -[line_of]];
    try destruct (sendall env _); cbn -[line_of]; rewrite <- ?app_assoc;
    eexists; (split; [reflexivity | split; [reflexivity | split; reflexivity]]).
Qed.

(** X15: [close] leaves no socket and touches no file, and closing again
    does nothing more. *)
Theorem close_idempotent (w : world) :
  w_sock (TcpLogSender.close w) = false
  /\ w_fs (TcpLogSender.close w) = w_fs w
  /\ TcpLogSender.close (TcpLogSender.close w) = TcpLogSender.close w.
Proof.
  unfold TcpLogSender.close. destruct (w_sock w) eqn:Hs; cbn; [done |].
  by rewrite Hs.
Qed.

Lemma forward_delivered (json_lines : list string) (w : world) :
  exists evs,
    w_trace (forward env json_lines w) = w_trace w ++ evs
    /\ forallb is_forwarder_event evs = true
    /\ sends evs = json_lines
    /\ delivered evs `sublist_of` map line_of json_lines
    /\ ((forall h, create_connection env h = true) -> (forall h, sendall env h = true) ->
        delivered evs = map line_of json_lines).
Proof.
  revert w. induction json_lines as [|l ls IH]; intros w.
  - exists []. by rewrite app_nil_r.
  - cbn [forward fold_left]. fold (forward env ls (TcpLogSender.send env l w)).
    destruct (IH (TcpLogSender.send env l w)) as (evs2 & Htr2 & Hfw2 & Hs2 & Hsub2 & Hon2).
    destruct (send_delivers_or_drops_aux l w) as (evs1 & Htr1 & Hfw1 & Hs1 & Hd1 & Hon1).
    exists ((EvSend l :: evs1) ++ evs2).
    rewrite Htr2, Htr1, <- app_assoc. split; [done |].
    rewrite forallb_app, sends_app, delivered_app. cbn [forallb is_forwarder_event].
    rewrite Hfw1, Hfw2. split; [done |].
    change (sends (EvSend l :: evs1)) with (l :: sends evs1).
    change (delivered (EvSend l :: evs1)) with (delivered evs1).
    rewrite Hs1, Hs2. split; [done |]. cbn [map]. split.
    + destruct Hd1 as [-> | ->]; [by apply sublist_skip | by apply sublist_cons].
    + intros Hc Hsa. by rewrite (Hon1 Hc Hsa), (Hon2 Hc Hsa).
Qed.
End Forwarder.

(** X16: what one call of [write_unique_logs] delivers over TCP is part of
    what it writes to the audit file, line for line and in the same order:
    nothing is delivered that is not written, and nothing twice.  When every
    connection attempt and every [sendall] succeeds, the two are equal. *)
Theorem delivered_is_written (env : environment) (logs : list value) (seen : gset string)
    (w : world) :
  exists evs,
    w_trace (snd (write_unique_logs env logs seen audit_filename w)) = w_trace w ++ evs
    /\ lines_written evs = map line_of (sends evs)
    /\ delivered evs `sublist_of` lines_written evs
    /\ ((forall h, create_connection env h = true) -> (forall h, sendall env h = true) ->
        delivered evs = lines_written evs).
Proof.
  rewrite write_unique_logs_eq. cbn [snd]. cbv zeta.
  destruct (rotate_trace env w) as (rot & Hrot & Hrot_ev).
  destruct (forward_delivered env (admitted logs seen) (rotate_audit_file env w))
    as (fwd & Hfwd & Hfwd_ev & Hs & Hsub & Hon).
  exists (rot ++ fwd ++ match admitted logs seen with
                        | [] => []
                        | _ :: _ => [EvWrite audit_filename (map line_of (admitted logs seen))]
                        end).
  unfold lines_written.
  rewrite !sends_app, !writes_app, !delivered_app.
  rewrite (rotation_no_send rot Hrot_ev), (rotation_no_write rot Hrot_ev),
    (rotation_no_delivery rot Hrot_ev), (forwarder_no_write fwd Hfwd_ev), Hs.
  destruct (admitted logs seen) as [|l ls].
  - cbn [app flat_map map]. rewrite !app_nil_r.
    split; [by rewrite Hfwd, Hrot, <- app_assoc |]. split; [done |].
    split; [exact Hsub | exact Hon].
  - unfold append_lines, emit. cbn [w_trace set_fs].
    split; [by rewrite Hfwd, Hrot, <- !app_assoc |].
    cbn -[line_of]. rewrite !app_nil_r.
    split; [done |]. split; [exact Hsub | exact Hon].
Qed.

(** ** Lines: what is written is read back line for line *)

Lemma append_cons (c : ascii) (s t : string) : String c s +:+ t = String c (s +:+ t).
Proof. reflexivity. Qed.

Lemma append_assoc (s t u : string) : (s +:+ t) +:+ u = s +:+ (t +:+ u).
Proof.
  induction s as [|c s IH]; [done |]. by rewrite !append_cons, IH.
Qed.

Lemma string_forall_app (p : ascii -> bool) (s t : string) :
  string_forall p (s +:+ t) = string_forall p s && string_forall p t.
Proof.
  induction s as [|c s IH]; [done |].
  rewrite append_cons. cbn [string_forall]. by rewrite IH, andb_assoc.
Qed.

Lemma single_line_no_CR (s : string) : single_line s = true -> no_CR s = true.
Proof.
  unfold single_line, no_CR. induction s as [|c s IH]; [done |].
  cbn [string_forall]. intros [[Hc _]%andb_prop Hs]%andb_prop.
  by rewrite Hc, (IH Hs).
Qed.

Lemma universal_newlines_no_CR (s : string) : no_CR s = true -> universal_newlines s = s.
Proof.
  unfold no_CR. induction s as [|c s IH]; [done |].
  cbn [string_forall universal_newlines]. intros [Hc Hs]%andb_prop.
  apply negb_true_iff in Hc. by rewrite Hc, (IH Hs).
Qed.

Lemma iter_lines_line (l rest : string) :
  single_line l = true ->
  iter_lines (line_of l +:+ rest) = line_of l :: iter_lines rest.
Proof.
  unfold single_line, line_of. induction l as [|c l IH].
  - intros _. reflexivity.
  - cbn [string_forall]. intros [[_ Hc]%andb_prop Hl]%andb_prop.
    apply negb_true_iff in Hc.
    rewrite !append_cons. cbn [iter_lines]. by rewrite Hc, (IH Hl).
Qed.

Lemma iter_lines_concat (ls : list string) :
  Forall (fun l => single_line l = true) ls ->
  iter_lines (concat_lines (map line_of ls)) = map line_of ls.
Proof.
  induction 1 as [|l ls Hl Hls IH]; [done |].
  cbn [map concat_lines]. by rewrite iter_lines_line, IH.
Qed.

Lemma no_CR_concat (ls : list string) :
  Forall (fun l => single_line l = true) ls ->
  no_CR (concat_lines (map line_of ls)) = true.
Proof.
  induction 1 as [|l ls Hl Hls IH]; [done |].
  cbn [map concat_lines]. pose proof (single_line_no_CR l Hl) as Hl'.
  unfold no_CR, line_of in *. by rewrite !string_forall_app, IH, Hl'.
Qed.

Lemma lines_of_concat (ls : list string) :
  Forall (fun l => single_line l = true) ls ->
  iter_lines (universal_newlines (concat_lines (map line_of ls))) = map line_of ls.
Proof.
  intros Hls.
  by rewrite (universal_newlines_no_CR _ (no_CR_concat ls Hls)), iter_lines_concat.
Qed.

(** X17: a file made of lines that [write_unique_logs] could have written
    (texts without a line break, each followed by a line feed) is read back
    by the file iterator as exactly these lines, line feeds included. *)
Theorem read_lines_written (ls : list string) (mtime : Z) :
  Forall (fun l => single_line l = true) ls ->
  read_lines (File (concat_lines (map line_of ls)) mtime) = map line_of ls.
Proof. intros Hls. unfold read_lines. cbn [f_data]. by apply lines_of_concat. Qed.

(** ** json.dumps gives one line *)

Lemma value_ind_nested (P : value -> Prop) :
  P JNull ->
  (forall b, P (JBool b)) ->
  (forall n, P (JInt n)) ->
  (forall repr, P (JFloat repr)) ->
  (forall s, P (JStr s)) ->
  (forall items, Forall P items -> P (JList items)) ->
  (forall members, Forall (fun kv => P (snd kv)) members -> P (JDict members)) ->
  forall v, P v.
Proof.
  intros HNull HBool HInt HFloat HStr HList HDict.
  fix IH 1. intros [| b | n | repr | s | items | members].
  - exact HNull.
  - apply HBool.
  - apply HInt.
  - apply HFloat.
  - apply HStr.
  - apply HList. induction items as [|v items IHitems]; constructor; [apply IH | exact IHitems].
  - apply HDict. induction members as [|[k v] members IHm]; constructor;
      [apply IH | exact IHm].
Qed.

Lemma single_line_app (s t : string) :
  single_line (s +:+ t) = single_line s && single_line t.
Proof. apply string_forall_app. Qed.

Lemma escape_char_single_line (c : ascii) : single_line (escape_char c) = true.
Proof. destruct c as [[] [] [] [] [] [] [] []]; reflexivity. Qed.

Lemma escape_single_line (s : string) : single_line (escape s) = true.
Proof.
  induction s as [|c s IH]; [done |].
  cbn [escape]. by rewrite single_line_app, escape_char_single_line, IH.
Qed.

Lemma encode_basestring_single_line (s : string) : single_line (encode_basestring s) = true.
Proof.
  unfold encode_basestring.
  change (String quote (escape s +:+ String quote EmptyString))
    with (String quote EmptyString +:+ escape s +:+ String quote EmptyString).
  by rewrite !single_line_app, escape_single_line.
Qed.

Lemma string_of_uint_single_line (d : Decimal.uint) :
  single_line (DecimalString.NilEmpty.string_of_uint d) = true.
Proof. induction d; cbn; try done. Qed.

Lemma str_int_single_line (n : Z) : single_line (str_int n) = true.
Proof.
  unfold str_int, DecimalString.NilZero.string_of_int, DecimalString.NilZero.string_of_uint.
  destruct (Z.to_int n) as [d|d]; destruct d; try done;
    cbn; apply string_of_uint_single_line.
Qed.

Lemma join_single_line (parts : list string) :
  Forall (fun p => single_line p = true) parts -> single_line (join parts) = true.
Proof.
  induction 1 as [|p parts Hp Hparts IH]; [done |].
  destruct parts as [|q parts]; [exact Hp |].
  change (join (p :: q :: parts)) with (p +:+ ", " +:+ join (q :: parts)).
  by rewrite !single_line_app, Hp, IH.
Qed.

Lemma dumps_no_line_break (v : value) :
  floats_single_line v = true -> single_line (dumps v) = true.
Proof.
  induction v as [| b | n | repr | s | items IH | members IH] using value_ind_nested;
    intros Hf.
  - reflexivity.
  - by destruct b.
  - apply str_int_single_line.
  - exact Hf.
  - apply encode_basestring_single_line.
  - change (dumps (JList items)) with ("[" +:+ join (map dumps items) +:+ "]").
    rewrite !single_line_app, join_single_line; [done |].
    cbn [floats_single_line] in Hf. apply Forall_forall. intros p Hp.
    apply list_elem_of_fmap in Hp as (v & -> & Hv).
    rewrite Forall_forall in IH. apply (IH v Hv).
    rewrite forallb_forall in Hf. apply Hf. by apply list_elem_of_In.
  - change (dumps (JDict members))
      with ("{" +:+ join (map (fun kv => encode_basestring (fst kv) +:+ ": "
                                          +:+ dumps (snd kv)) members) +:+ "}").
    rewrite !single_line_app, join_single_line; [done |].
    cbn [floats_single_line] in Hf. apply Forall_forall. intros p Hp.
    apply list_elem_of_fmap in Hp as (kv & -> & Hkv).
    rewrite !single_line_app, encode_basestring_single_line.
    rewrite Forall_forall in IH. rewrite (IH kv Hkv); [done |].
    rewrite forallb_forall in Hf. apply Hf. by apply list_elem_of_In.
Qed.

(** X18: the serialisation of a record holds no CR and no LF (line breaks
    inside strings are written as escapes), so each record takes exactly
    one line: the line written for it is read back as that one line. *)
Theorem dumps_single_line (v : value) :
  floats_single_line v = true ->
  single_line (dumps v) = true
  /\ forall mtime, read_lines (File (line_of (dumps v)) mtime) = [line_of (dumps v)].
Proof.
  intros Hf. pose proof (dumps_no_line_break v Hf) as Hline.
  split; [exact Hline |]. intros mtime. unfold read_lines. cbn [f_data].
  rewrite <- (append_empty_r (line_of (dumps v))) at 1.
  apply (lines_of_concat [dumps v]). by constructor.
Qed.

(** ** Replay after a run *)

Lemma fold_left_hashes (ls : list string) (acc : gset string) :
  fold_left (fun seen_hashes line => {[sha256_hexdigest line]} ∪ seen_hashes) ls acc
  = list_to_set (map sha256_hexdigest ls) ∪ acc.
Proof.
  revert acc. induction ls as [|l ls IH]; intros acc.
  - cbn. by rewrite (left_id_L ∅ (∪)).
  - cbn [fold_left map list_to_set]. rewrite IH.
    by rewrite (assoc_L (∪)), (comm_L (∪) (list_to_set _) {[_]}).
Qed.

Lemma load_existing_event_hashes_absent_aux (filename : string) (w : world) :
  w_fs w !! filename = None -> load_existing_event_hashes filename w = ∅.
Proof. intros H. unfold load_existing_event_hashes. by rewrite H. Qed.

(** X19: the set replayed from a file holds exactly the hashes of its
    lines as the iterator yields them. *)
Theorem load_existing_event_hashes_lines (filename : string) (w : world) (f : file) :
  w_fs w !! filename = Some f ->
  load_existing_event_hashes filename w = list_to_set (map sha256_hexdigest (read_lines f)).
Proof.
  intros Hf. unfold load_existing_event_hashes.
  by rewrite Hf, fold_left_hashes, (right_id_L ∅ (∪)).
Qed.

(** X20: after one call of [write_unique_logs] that found no audit file,
    replaying the file gives the hashes of the written lines, each taken
    with its line feed: for every serialisation handed to the forwarder the
    replayed set holds the hash of that text followed by LF, and nothing
    else. *)
Theorem replay_after_write (env : environment) (logs : list value) (seen : gset string)
    (w : world) :
  w_fs w !! audit_filename = None ->
  forallb floats_single_line logs = true ->
  exists evs,
    w_trace (snd (write_unique_logs env logs seen audit_filename w)) = w_trace w ++ evs
    /\ load_existing_event_hashes audit_filename
         (snd (write_unique_logs env logs seen audit_filename w))
       = list_to_set (map (fun json_line => sha256_hexdigest (line_of json_line)) (sends evs)).
Proof.
  intros Habsent Hfloats.
  destruct (write_unique_logs_events env logs seen w) as (evs & Htr & Hs & _).
  exists evs. split; [exact Htr |]. rewrite Hs.
  assert (Forall (fun l => single_line l = true) (admitted logs seen)) as Hlines.
  { apply Forall_forall. intros l Hl.
    pose proof (admitted_sublist logs seen) as Hsub.
    apply (elem_of_sublist _ _ _ Hl) in Hsub. rename Hsub into Hl'. clear Hl. rename Hl' into Hl.
    apply list_elem_of_fmap in Hl as (v & -> & Hv).
    apply dumps_no_line_break. rewrite forallb_forall in Hfloats.
    apply Hfloats. by apply list_elem_of_In. }
  rewrite write_unique_logs_eq. cbn [snd]. cbv zeta.
  destruct (admitted logs seen) as [|l ls] eqn:Hadm.
  - cbn [forward fold_left map list_to_set].
    apply load_existing_event_hashes_absent_aux. by apply rotate_keeps_absent.
  - unfold load_existing_event_hashes, append_lines, emit, set_fs. cbn [w_fs].
    rewrite lookup_insert_eq, fold_left_hashes, (right_id_L ∅ (∪)).
    rewrite forward_fs, (rotate_keeps_absent env w Habsent).
    change (EmptyString +:+ concat_lines (map line_of (l :: ls)))
      with (concat_lines (map line_of (l :: ls))).
    unfold read_lines. cbn [f_data]. by rewrite (lines_of_concat _ Hlines), map_map.
Qed.

(** ** The poll loop: what a turn keeps *)

Section PollLoopMore.
Variable env : environment.

Lemma fetch_logs_keeps (start_dt end_dt : Z) (w : world) :
  w_fs (snd (fetch_logs env start_dt end_dt w)) = w_fs w
  /\ w_sock (snd (fetch_logs env start_dt end_dt w)) = w_sock w
  /\ exists evs, w_trace (snd (fetch_logs env start_dt end_dt w)) = w_trace w ++ evs
                 /\ forallb is_fetch_event evs = true.
Proof.
  destruct (fetch_attempts_bounded env start_dt end_dt (seq 1 MAX_RETRIES) w)
    as (Hfs & Hsock & evs & Htr & Hev & _).
  split; [exact Hfs | split; [exact Hsock |]]. by exists evs.
Qed.

(** X21: a turn of the loop whose fetch fails or brings an empty list
    leaves the set, the files and the socket as they were, and forwards
    and writes nothing; it still moves [last_end_dt] to the instant it
    read. *)
Theorem poll_cycle_without_records (st : main_state) (w : world) :
  let now := datetime_now env (w_trace w ++ [EvSleep 60]) in
  let fetched := fst (fetch_logs env (last_end_dt st) now (emit (EvSleep 60) w)) in
  fetched = None \/ fetched = Some [] ->
  let r := poll_cycle env (st, w) in
  seen_hashes (fst r) = seen_hashes st
  /\ last_end_dt (fst r) = now
  /\ w_fs (snd r) = w_fs w
  /\ w_sock (snd r) = w_sock w
  /\ exists evs, w_trace (snd r) = w_trace w ++ evs
                 /\ forallb is_fetch_event evs = true.
Proof.
  cbv zeta. unfold poll_cycle.
  change (w_trace w ++ [EvSleep 60]) with (w_trace (emit (EvSleep 60) w)).
  set (w0 := emit (EvSleep 60) w).
  set (now := datetime_now env (w_trace w0)).
  destruct (fetch_logs_keeps (last_end_dt st) now w0) as (Hfs & Hsock & evs & Htr & Hev).
  destruct (fetch_logs env (last_end_dt st) now w0) as [logs_new w1].
  cbn [fst snd] in *. intros Hfetched.
  assert (w_trace w1 = w_trace w ++ EvSleep 60 :: evs) as Htr'
    by (rewrite Htr; subst w0; cbn [emit w_trace]; by rewrite <- app_assoc).
  destruct Hfetched as [-> | ->]; cbn [fst snd seen_hashes last_end_dt];
    (split; [done | split; [done | split; [exact Hfs | split; [exact Hsock |]]]]);
    exists (EvSleep 60 :: evs); by rewrite Htr'.
Qed.

Lemma poll_cycle_seen (st : main_state) (w : world) :
  seen_hashes st ⊆ seen_hashes (fst (poll_cycle env (st, w))).
Proof.
  unfold poll_cycle.
  destruct (fetch_logs env _ _ _) as [[[|log logs]|] w1]; cbn [fst seen_hashes]; try done.
  pose proof (write_unique_logs_eq env (log :: logs) (seen_hashes st) audit_filename w1) as H.
  destruct (write_unique_logs env (log :: logs) (seen_hashes st) audit_filename w1)
    as [seen' w2].
  injection H as -> _. cbn [fst seen_hashes]. apply (seen_after_mono (log :: logs)).
Qed.

Lemma main_init_seen (w : world) :
  load_existing_event_hashes audit_filename w ⊆ seen_hashes (fst (main_init env w)).
Proof.
  unfold main_init, time_window.
  destruct (fetch_logs env _ _ _) as [[logs|] w1]; cbn [fst seen_hashes]; [| done].
  pose proof (write_unique_logs_eq env logs (load_existing_event_hashes audit_filename w)
                audit_filename w1) as H.
  destruct (write_unique_logs env logs _ audit_filename w1) as [seen' w2].
  injection H as -> _. cbn [fst seen_hashes]. apply seen_after_mono.
Qed.

Lemma main_succ (n : nat) (w : world) :
  main env (S n) w = poll_cycle env (main env n w).
Proof. reflexivity. Qed.

(** X22: the set of fingerprints [main] holds never loses an element: what
    was replayed from the audit file at the start is in it after every
    turn, and what is in it after a turn is in it after every later
    turn. *)
Theorem main_seen_hashes_grow (n m : nat) (w : world) :
  (n <= m)%nat ->
  load_existing_event_hashes audit_filename w ⊆ seen_hashes (fst (main env n w))
  /\ seen_hashes (fst (main env n w)) ⊆ seen_hashes (fst (main env m w)).
Proof.
  intros Hnm. split.
  - clear Hnm. induction n as [|n IH]; [apply main_init_seen |].
    rewrite main_succ. destruct (main env n w) as [st w1].
    etrans; [exact IH | apply poll_cycle_seen].
  - induction Hnm as [|m Hnm IH]; [done |].
    rewrite main_succ. destruct (main env m w) as [st w1].
    etrans; [exact IH | apply poll_cycle_seen].
Qed.

Lemma poll_cycle_trace (st : main_state) (w : world) :
  exists evs, w_trace (snd (poll_cycle env (st, w))) = (w_trace w ++ [EvSleep 60]) ++ evs.
Proof.
  unfold poll_cycle.
  change (w_trace w ++ [EvSleep 60]) with (w_trace (emit (EvSleep 60) w)).
  set (w0 := emit (EvSleep 60) w).
  set (now := datetime_now env (w_trace w0)).
  destruct (fetch_logs_keeps (last_end_dt st) now w0) as (_ & _ & evs & Htr & _).
  destruct (fetch_logs env (last_end_dt st) now w0) as [logs_new w1].
  cbn [snd] in Htr.
  destruct logs_new as [[|log logs]|]; cbn [snd]; [by exists evs | | by exists evs].
  destruct (write_unique_logs_trace env (log :: logs) (seen_hashes st) w1)
    as (rot & fwd & Hw & _).
  destruct (write_unique_logs env (log :: logs) (seen_hashes st) audit_filename w1).
  cbn [snd] in *. rewrite Hw, Htr, <- app_assoc. by eexists.
Qed.

(** X23: with a clock that never runs backwards, every window [main]
    queries is well formed: its start is not after its end. *)
Theorem windows_ordered (n : nat) (w : world) :
  (forall h evs, datetime_now env h <= datetime_now env (h ++ evs)) ->
  exists ws,
    windows (w_trace (snd (main env n w))) = windows (w_trace w) ++ ws
    /\ Forall (fun window => fst window <= snd window) ws.
Proof.
  intros Hclock.
  assert (exists ws h evs,
            windows (w_trace (snd (main env n w))) = windows (w_trace w) ++ ws
            /\ Forall (fun window => fst window <= snd window) ws
            /\ w_trace (snd (main env n w)) = h ++ evs
            /\ last_end_dt (fst (main env n w)) = datetime_now env h)
    as (ws & _ & _ & Hwin & Hord & _);
    [| by exists ws].
  induction n as [|n IH].
  - destruct (main_init_window env w) as [Hw Hl].
    exists [(datetime_now env (w_trace w) - 24 * 3600 * 1000000, datetime_now env (w_trace w))].
    assert (exists evs, w_trace (snd (main_init env w)) = w_trace w ++ evs) as [evs Hevs].
    { unfold main_init, time_window.
      destruct (fetch_logs_keeps (datetime_now env (w_trace w) - 24 * 3600 * 1000000)
                  (datetime_now env (w_trace w)) w) as (_ & _ & evs & Htr & _).
      destruct (fetch_logs env _ _ w) as [[logs|] w1]; cbn [snd] in *; [| by exists evs].
      destruct (write_unique_logs_trace env logs
                  (load_existing_event_hashes audit_filename w) w1) as (rot & fwd & Hw1 & _).
      destruct (write_unique_logs env logs _ audit_filename w1).
      cbn [snd] in *. rewrite Hw1, Htr, <- app_assoc. by eexists. }
    exists (w_trace w), evs. unfold main. cbn [Nat.iter nat_rect].
    split; [exact Hw |]. split; [| split; [exact Hevs | exact Hl]].
    constructor; [cbn; lia | constructor].
  - destruct IH as (ws & h & evs & Hws & Hord & Htr & Hlast).
    rewrite main_succ. destruct (main env n w) as [st w1]. cbn [fst snd] in *.
    destruct (poll_cycle_window env st w1) as [Hw Hl].
    destruct (poll_cycle_trace st w1) as [evs' Htr'].
    exists (ws ++ [(last_end_dt st, datetime_now env (w_trace w1 ++ [EvSleep 60]))]),
      (w_trace w1 ++ [EvSleep 60]), evs'.
    split; [by rewrite Hw, Hws, <- app_assoc |].
    split; [| split; [exact Htr' | exact Hl]].
    apply Forall_app. split; [exact Hord |].
    constructor; [| constructor]. cbn [fst snd].
    rewrite Hlast, Htr, <- app_assoc. apply Hclock.
Qed.
End PollLoopMore.

(** ** The properties beyond the claims, at concrete inputs *)

Lemma fetch_logs_http_error_exhaustion_witness :
  fst (fetch_logs env_http_errors 0 60000000 world_empty) = None
  /\ requests (w_trace (snd (fetch_logs env_http_errors 0 60000000 world_empty))) = 5%nat
  /\ slept (w_trace (snd (fetch_logs env_http_errors 0 60000000 world_empty))) = 30.
Proof.
  rewrite (fetch_logs_http_error_exhaustion env_http_errors 0 60000000 world_empty)
    by (intros evs; reflexivity).
  repeat split.
Defined.

Lemma fetch_logs_recovers_witness :
  fst (fetch_logs env_flaky 0 60000000 world_empty) = Some [record1; record2]
  /\ w_trace (snd (fetch_logs env_flaky 0 60000000 world_empty))
     = [EvGet 0 60000000 1; EvSleep 2; EvGet 0 60000000 2; EvSleep 4; EvGet 0 60000000 3].
Proof.
  rewrite (fetch_logs_recovers env_flaky 0 60000000 2 world_empty
             (Response (dumps (JList [record1; record2]))
                       (Decoded (JList [record1; record2])))
             [record1; record2]).
  - split; reflexivity.
  - unfold MAX_RETRIES. lia.
  - intros j Hj. destruct j as [|[|j]]; [reflexivity | reflexivity | lia].
  - reflexivity.
  - vm_compute. reflexivity.
  - reflexivity.
Defined.

Lemma rotate_keeps_audit_data_witness :
  w_fs (rotate_audit_file env_offline world_full) !! backup_filename = Some big_audit.
Proof.
  assert (w_fs world_full !! audit_filename = Some big_audit) as Hlook
    by apply lookup_insert_eq.
  destruct (rotate_keeps_audit_data env_offline world_full big_audit Hlook) as [H _].
  assert (rotation_due world_full = true) as Hdue.
  { unfold rotation_due. rewrite Hlook, big_audit_size. reflexivity. }
  rewrite Hdue in H. apply H.
Defined.

Lemma rotate_nothing_to_do_witness :
  rotate_audit_file env_offline world_quiet = world_quiet.
Proof.
  apply rotate_nothing_to_do.
  - intros b Hb. unfold world_quiet in Hb. cbn [w_fs] in Hb.
    rewrite lookup_insert_ne, lookup_insert_eq in Hb by discriminate.
    injection Hb as <-. vm_compute. discriminate.
  - vm_compute. reflexivity.
Defined.

Lemma stale_big_audit_size : os_path_getsize stale_big_audit = MAX_AUDIT_FILESIZE.
Proof.
  unfold os_path_getsize, stale_big_audit. cbn [f_data].
  rewrite length_filler. apply Z2Nat.id. discriminate.
Qed.

Lemma rotate_twice_drops_stale_data_witness :
  let w2 := rotate_audit_file env_offline (rotate_audit_file env_offline world_full_stale) in
  w_fs w2 !! audit_filename = None /\ w_fs w2 !! backup_filename = None.
Proof.
  assert (w_fs world_full_stale !! audit_filename = Some stale_big_audit) as Hlook
    by apply lookup_insert_eq.
  assert (MAX_AUDIT_FILESIZE <= os_path_getsize stale_big_audit) as Hsize
    by (rewrite stale_big_audit_size; lia).
  destruct (rotate_twice_drops_stale_data env_offline world_full_stale stale_big_audit
              Hlook Hsize) as (_ & H1 & H2).
  - unfold env_offline, stale_big_audit, BACKUP_MAX_AGE_SECS. cbn [time_time f_mtime]. lia.
  - split; [exact H1 | exact H2].
Defined.

Lemma write_unique_logs_all_seen_witness :
  write_unique_logs env_online [record1; record1] {[fingerprint record1]} audit_filename
    world_empty
  = ({[fingerprint record1]}, rotate_audit_file env_online world_empty).
Proof.
  apply write_unique_logs_all_seen.
  repeat constructor; by apply elem_of_singleton.
Defined.

Lemma write_unique_logs_appends_witness :
  exists evs,
    w_trace (snd (write_unique_logs env_online [record1] ∅ audit_filename world_quiet)) = evs
    /\ contents (snd (write_unique_logs env_online [record1] ∅ audit_filename world_quiet))
         !! audit_filename
       = Some ("{}" +:+ concat_lines (map line_of (sends evs))).
Proof.
  destruct (write_unique_logs_appends env_online [record1] ∅ world_quiet small_audit)
    as (evs & Htr & Hc).
  - vm_compute. reflexivity.
  - vm_compute. reflexivity.
  - exists evs. split; [exact Htr | exact Hc].
Defined.

Lemma write_unique_logs_after_rotation_witness :
  contents (snd (write_unique_logs env_online [record1] ∅ audit_filename world_full))
    !! backup_filename
  = Some (f_data big_audit).
Proof.
  assert (w_fs world_full !! audit_filename = Some big_audit) as Hlook
    by apply lookup_insert_eq.
  assert (rotation_due world_full = true) as Hdue.
  { unfold rotation_due. rewrite Hlook, big_audit_size. reflexivity. }
  destruct (write_unique_logs_after_rotation env_online [record1] ∅ world_full big_audit
              Hdue Hlook) as (evs & _ & Hb & _).
  exact Hb.
Defined.

Lemma delivered_is_written_witness :
  exists evs,
    w_trace (snd (write_unique_logs env_online [record1; record2] ∅ audit_filename
                    world_empty)) = evs
    /\ delivered evs = lines_written evs.
Proof.
  destruct (delivered_is_written env_online [record1; record2] ∅ world_empty)
    as (evs & Htr & _ & _ & Hon).
  exists evs. split; [exact Htr |]. apply Hon; intros h; reflexivity.
Defined.

Lemma read_lines_written_witness :
  read_lines (File (concat_lines (map line_of [dumps record1; dumps record2])) 0)
  = [line_of (dumps record1); line_of (dumps record2)].
Proof.
  apply (read_lines_written [dumps record1; dumps record2] 0).
  repeat constructor; vm_compute; reflexivity.
Defined.

Lemma dumps_single_line_witness :
  single_line (dumps record_multiline) = true
  /\ read_lines (File (line_of (dumps record_multiline)) 0)
     = [line_of (dumps record_multiline)].
Proof.
  destruct (dumps_single_line record_multiline eq_refl) as [H1 H2].
  split; [exact H1 | apply H2].
Defined.

Lemma load_existing_event_hashes_lines_witness :
  load_existing_event_hashes audit_filename world_quiet
  = list_to_set (map sha256_hexdigest (read_lines small_audit)).
Proof.
  apply load_existing_event_hashes_lines.
  apply lookup_insert_eq.
Defined.

Lemma replay_after_write_witness :
  exists evs,
    w_trace (snd (write_unique_logs env_online [record1; record2] ∅ audit_filename
                    world_empty)) = evs
    /\ load_existing_event_hashes audit_filename
         (snd (write_unique_logs env_online [record1; record2] ∅ audit_filename world_empty))
       = list_to_set (map (fun json_line => sha256_hexdigest (line_of json_line)) (sends evs)).
Proof.
  destruct (replay_after_write env_online [record1; record2] ∅ world_empty)
    as (evs & Htr & Hload).
  - apply lookup_empty.
  - reflexivity.
  - exists evs. split; [exact Htr | exact Hload].
Defined.

Lemma poll_cycle_without_records_witness :
  let r := poll_cycle env_timeouts (MainState ∅ 0, world_empty) in
  seen_hashes (fst r) = ∅ /\ last_end_dt (fst r) = 0 /\ w_fs (snd r) = ∅.
Proof.
  destruct (poll_cycle_without_records env_timeouts (MainState ∅ 0) world_empty)
    as (H1 & H2 & H3 & _).
  - left. reflexivity.
  - split; [exact H1 | split; [exact H2 | exact H3]].
Defined.

Lemma main_seen_hashes_grow_witness :
  seen_hashes (fst (main env_offline 0 world_empty))
  ⊆ seen_hashes (fst (main env_offline 1 world_empty)).
Proof.
  apply (main_seen_hashes_grow env_offline 0 1 world_empty). lia.
Defined.

Lemma windows_ordered_witness :
  exists ws,
    windows (w_trace (snd (main env_offline 2 world_empty))) = ws
    /\ Forall (fun window => fst window <= snd window) ws.
Proof.
  destruct (windows_ordered env_offline 2 world_empty) as (ws & Hws & Hord).
  - intros h evs. reflexivity.
  - exists ws. split; [exact Hws | exact Hord].
Defined.
